(** * MultiQC bar plot (multiqc/plots/plotly/bar.py): a shallow embedding

    The development follows [BarPlot.__init__] and [BarPlot.Dataset.create]
    stage by stage: category checks, barmode selection, chart height, axis
    ranges, zero padding, percentages and the log-tab reordering.

    Conventions of the embedding:
    - Python exceptions are values of [exn]; a computation that may raise
      returns a [result].
    - Python numbers are [num]: an exact rational ([Qc]) or [NaN].  Integers
      are embedded exactly; the rounding of binary floating point is not
      represented, every arithmetic operation is the exact one.  Infinities
      and the [OverflowError] of a conversion to [float] are outside this
      model.
    - where a property depends on rounding, the percent stage is given a
      second time over Python's ints and IEEE 754 binary64 floats
      ([percentages64]).
    - the integers of the sizing code ([len], pixel heights) are [Z]. *)

From Stdlib Require Import ZArith QArith Qcanon Qcabs Lia.
From Stdlib Require Import Floats.PrimFloat Floats.SpecFloat Floats.FloatOps.
From stdpp Require Import base numbers list strings gmap sorting.

#[local] Set Warnings "-clear-no-such-hyp".

Open Scope Z_scope.

(** ** Exceptions *)

Inductive exn : Type :=
  | ValueError
  | AssertionError
  | IndexError
  | KeyError
  | ZeroDivisionError
  | OverflowError
  | ColorError.

Inductive result (A : Type) : Type :=
  | Ok (a : A)
  | Raise (e : exn).
Arguments Ok {A} a.
Arguments Raise {A} e.

Global Instance result_bind : MBind result := λ A B k r,
  match r with
  | Ok a => k a
  | Raise e => Raise e
  end.
Global Instance result_ret : MRet result := λ A a, Ok a.

(** A comprehension or generator whose body may raise is evaluated from left
    to right with stdpp's [mapM] in this monad: the first exception in
    iteration order wins. *)

(** [l[i]] for a non-negative index. *)
Definition getitem {A} (l : list A) (i : nat) : result A :=
  match l !! i with
  | Some x => Ok x
  | None => Raise IndexError
  end.

(** The builtins [max] and [min] over an iterable: [ValueError] on an empty
    one; the running value is replaced only by a strictly greater (smaller)
    item, so the first of several candidates is kept. *)
Definition py_max_by {A} (gt : A → A → bool) (l : list A) : result A :=
  match l with
  | [] => Raise ValueError
  | x :: l' => Ok (foldl (fun cur item => if gt item cur then item else cur) x l')
  end.

Definition py_min_by {A} (lt : A → A → bool) (l : list A) : result A :=
  match l with
  | [] => Raise ValueError
  | x :: l' => Ok (foldl (fun cur item => if lt item cur then item else cur) x l')
  end.

(** ** Plot configuration and barmode *)

Inductive pyval : Type :=
  | PyNone
  | PyStr (s : string)
  | PyBool (b : bool)
  | PyInt (z : Z).

(** The two values the code gives to [barmode]: ["relative"] (stacked, with
    negative values drawn below zero) and ["group"] (side by side). *)
Inductive Barmode : Type :=
  | relative
  | group.

Global Instance Barmode_eq_dec : EqDecision Barmode.
Proof. solve_decision. Defined.

(** [pconfig["stacking"] in ["group", "normal", None]] *)
Definition in_group_normal_None (v : pyval) : bool :=
  match v with
  | PyStr s => bool_decide (s = "group") || bool_decide (s = "normal")
  | PyNone => true
  | _ => false
  end.

Definition barmode (pconfig : gmap string pyval) : Barmode :=
  match pconfig !! "stacking" with
  | Some v => if in_group_normal_None v then group else relative
  | None => relative
  end.

(** ** Chart height *)

Definition n_bars (bm : Barmode) (max_n_samples max_n_cats : Z) : Z :=
  match bm with
  | group => max_n_samples * max_n_cats
  | relative => max_n_samples
  end.

Definition n_bars_to_size (n : Z) : Z :=
  if 30 <=? n then 15
  else if 20 <=? n then 20
  else if 10 <=? n then 25
  else if 5 <=? n then 30
  else 35.

Definition HEIGHT_PER_LEGEND_ITEM : Z := 19.
Definition MIN_HEIGHT : Z := 300.
Definition MAX_HEIGHT : Z := 2560.

Definition legend_height (max_n_cats : Z) : Z :=
  HEIGHT_PER_LEGEND_ITEM * max_n_cats.

(** The value of [height] just before the title and footer space is added
    (lines 140-148). *)
Definition height_before_margin (bm : Barmode) (max_n_samples max_n_cats : Z) : Z :=
  let n := n_bars bm max_n_samples max_n_cats in
  let height := n * n_bars_to_size n in
  let height := Z.max height (Z.max height (legend_height max_n_cats)) in
  Z.min 660 (Z.max height (legend_height max_n_cats)).

(** The final value of [height] (lines 150-157). *)
Definition height (bm : Barmode) (max_n_samples max_n_cats : Z) : Z :=
  let height := height_before_margin bm max_n_samples max_n_cats + 140 in
  let height := Z.min MAX_HEIGHT height in
  Z.max MIN_HEIGHT height.

(** The sizing rule in the words of the specification, for comparison with
    [height]: effective bar count, per-bar allowance, base and legend height,
    a fixed margin and a clamp. *)
Definition clamp (lo hi x : Z) : Z := Z.max lo (Z.min hi x).

Definition effective_bar_count (bm : Barmode) (samples cats : Z) : Z :=
  match bm with
  | relative => samples
  | group => samples * cats
  end.

Definition per_bar_allowance (bars : Z) : Z :=
  if decide (30 ≤ bars) then 15
  else if decide (20 ≤ bars) then 20
  else if decide (10 ≤ bars) then 25
  else if decide (5 ≤ bars) then 30
  else 35.

Definition base_height (bm : Barmode) (samples cats : Z) : Z :=
  effective_bar_count bm samples cats
  * per_bar_allowance (effective_bar_count bm samples cats).

Definition documented_height (bm : Barmode) (samples cats : Z) : Z :=
  clamp 300 2560 (Z.max (base_height bm samples cats) (19 * cats) + 140).

Definition capped_height (bm : Barmode) (samples cats : Z) : Z :=
  clamp 300 2560
    (Z.min 660 (Z.max (base_height bm samples cats) (19 * cats)) + 140).

(** ** Numbers *)

Inductive num : Type :=
  | Fin (q : Qc)
  | NaN.

Global Instance num_eq_dec : EqDecision num.
Proof. solve_decision. Defined.

Definition of_Z (z : Z) : num := Fin (Q2Qc (inject_Z z)).
Coercion of_Z : Z >-> num.

(** [math.isnan] *)
Definition isnan (x : num) : bool :=
  match x with
  | NaN => true
  | Fin _ => false
  end.

Definition py_add (x y : num) : num :=
  match x, y with
  | Fin a, Fin b => Fin (a + b)%Qc
  | _, _ => NaN
  end.

Definition py_mul (x y : num) : num :=
  match x, y with
  | Fin a, Fin b => Fin (a * b)%Qc
  | _, _ => NaN
  end.

Definition py_abs (x : num) : num :=
  match x with
  | Fin a => Fin (Qcabs a)
  | NaN => NaN
  end.

(** [x / y] *)
Definition py_truediv (x y : num) : result num :=
  match x, y with
  | Fin a, Fin b =>
      if bool_decide (b = Q2Qc 0) then Raise ZeroDivisionError
      else Ok (Fin (a / b)%Qc)
  | _, _ => Ok NaN
  end.

(** Comparisons: every comparison with [NaN] is false. *)
Definition py_lt (x y : num) : bool :=
  match x, y with
  | Fin a, Fin b => bool_decide (a < b)%Qc
  | _, _ => false
  end.

Definition py_gt (x y : num) : bool := py_lt y x.

Definition py_eq (x y : num) : bool :=
  match x, y with
  | Fin a, Fin b => bool_decide (a = b)
  | _, _ => false
  end.

(** The builtin [sum]: starts from the integer 0 and adds from the left. *)
Definition py_sum (l : list num) : num := foldl py_add (of_Z 0) l.

Definition py_max : list num → result num := py_max_by py_gt.
Definition py_min : list num → result num := py_min_by py_lt.

(** [float(x)] changes nothing in the exact model. *)
Definition float (x : num) : num := x.

(** ** Categories and datasets *)

(** A category dict.  The docstring of [plot] gives it the keys [name],
    [color] and [data]; [create] itself checks for [name], so that key may be
    absent here; [data_pct] is absent until the percentages are saved. *)
Record Cat : Type := mkCat {
  name : option string;
  color : string;
  data : list num;
  data_pct : option (list num);
}.

(** What this file reads and writes of a [BaseDataset]: the percent range of
    the value axis and the allowed range and legend flag of its layout. *)
Record BaseDataset : Type := mkBaseDataset {
  pct_range_xaxis_min : num;
  pct_range_xaxis_max : num;
  minallowed : option num;
  maxallowed : option num;
  showlegend : bool;
}.

Record Dataset : Type := mkDataset {
  base : BaseDataset;
  cats : list Cat;
  samples : list string;
}.

Record Layout : Type := mkLayout {
  layout_height : Z;
  layout_barmode : Barmode;
  legend_traceorder : string;
}.

(** The state left by [Plot.__init__]. *)
Record Plot : Type := mkPlot {
  plot_datasets : list BaseDataset;
  add_pct_tab : bool;
  add_log_tab : bool;
}.

Record BarPlot : Type := mkBarPlot {
  datasets : list Dataset;
  layout : Layout;
}.

Definition set_name (nm : string) (cat : Cat) : Cat :=
  mkCat (Some nm) (color cat) (data cat) (data_pct cat).
Definition set_color (c : string) (cat : Cat) : Cat :=
  mkCat (name cat) c (data cat) (data_pct cat).
Definition set_data (d : list num) (cat : Cat) : Cat :=
  mkCat (name cat) (color cat) d (data_pct cat).
Definition set_data_pct (p : list num) (cat : Cat) : Cat :=
  mkCat (name cat) (color cat) (data cat) (Some p).
Definition set_cats (cs : list Cat) (ds : Dataset) : Dataset :=
  mkDataset (base ds) cs (samples ds).

(** ** Dataset.create *)

Section Create.
(** [split_long_string] lives in multiqc/plots/plotly/plot.py and the
    colour parser in the [spectra] package; [rgb_string c] stands for
    [",".join(f"{x:.2f}" for x in spectra.html(c).rgb)] and raises what the
    parser raises. *)
Variable split_long_string : string → list string.
Variable rgb_string : string → result string.

(** The body of the loop over [cats] (lines 60-70). *)
Definition create_cat (samples : list string) (cat : Cat) : result Cat :=
  match name cat with
  | None => Raise ValueError
  | Some nm =>
      let cat := set_name (String.concat "<br>" (split_long_string nm)) cat in
      c ← rgb_string (color cat);
      let cat := set_color c cat in
      if bool_decide (length samples = length (data cat)) then Ok cat
      else Raise AssertionError
  end.

Definition create (dataset : BaseDataset) (cats : list Cat)
    (samples : list string) : result Dataset :=
  cats ← mapM (create_cat samples) cats;
  Ok (mkDataset dataset cats samples).
End Create.

(** ** Axis ranges *)

Definition cat_data (cat : Cat) : result (list num) := Ok (data cat).

Definition cat_data_pct (cat : Cat) : result (list num) :=
  match data_pct cat with
  | Some p => Ok p
  | None => Raise KeyError
  end.

(** [(cat[key][i] for cat in dataset.cats)] *)
Definition column (get : Cat → result (list num)) (cats : list Cat) (i : nat)
    : result (list num) :=
  mapM (λ cat, l ← get cat; getitem l i) cats.

(** [range(len(dataset.samples))] *)
Definition sample_range (ds : Dataset) : list nat := seq 0 (length (samples ds)).

Definition only_positive (v : num) : num := if py_gt v (of_Z 0) then v else of_Z 0.
Definition only_negative (v : num) : num := if py_lt v (of_Z 0) then v else of_Z 0.

Definition max_of_max get (ds : Dataset) : result num :=
  rows ← mapM (λ i, col ← column get (cats ds) i; py_max col) (sample_range ds);
  py_max rows.

Definition min_of_min get (ds : Dataset) : result num :=
  rows ← mapM (λ i, col ← column get (cats ds) i; py_min col) (sample_range ds);
  py_min rows.

Definition max_of_positive_sums get (ds : Dataset) : result num :=
  rows ← mapM (λ i, col ← column get (cats ds) i; Ok (py_sum (only_positive <$> col)))
            (sample_range ds);
  py_max rows.

Definition min_of_negative_sums get (ds : Dataset) : result num :=
  rows ← mapM (λ i, col ← column get (cats ds) i; Ok (py_sum (only_negative <$> col)))
            (sample_range ds);
  py_min rows.

Definition xmax_cnt (bm : Barmode) (ds : Dataset) : result num :=
  match bm with
  | group => max_of_max cat_data ds
  | relative => max_of_positive_sums cat_data ds
  end.

Definition xmin_cnt (bm : Barmode) (ds : Dataset) : result num :=
  match bm with
  | group => min_of_min cat_data ds
  | relative => min_of_negative_sums cat_data ds
  end.

(** The loop body of lines 196-231, as far as the allowed range and the
    legend flag go. *)
Definition set_ranges (bm : Barmode) (ds : Dataset) : result Dataset :=
  xmax ← xmax_cnt bm ds;
  xmin ← xmin_cnt bm ds;
  let b := base ds in
  Ok (mkDataset
        (mkBaseDataset (pct_range_xaxis_min b) (pct_range_xaxis_max b)
           (Some xmin) (Some xmax) (bool_decide (1 < length (cats ds))%nat))
        (cats ds) (samples ds)).

(** ** Expanding short data with zeroes (lines 248-252) *)

Definition expand_data (n_samples : nat) (d : list num) : list num :=
  if bool_decide (length d < n_samples)%nat
  then d ++ replicate (n_samples - length d) (of_Z 0)
  else d.

Definition expand_dataset (ds : Dataset) : Dataset :=
  set_cats ((λ cat, set_data (expand_data (length (samples ds)) (data cat)) cat)
              <$> cats ds) ds.

(** ** Percentages (lines 254-284) *)

Fixpoint foldM {A B} (f : B → A → result B) (b : B) (l : list A) : result B :=
  match l with
  | [] => Ok b
  | x :: l' => b' ← f b x; foldM f b' l'
  end.

(** [for sample_idx, val in enumerate(cat["data"])], from index [idx] on:
    [sums[sample_idx] += abs(val)] unless [val] is NaN. *)
Fixpoint add_abs_from (idx : nat) (vals : list num) (sums : list num)
    : result (list num) :=
  match vals with
  | [] => Ok sums
  | val :: vals' =>
      sums' ← (if negb (isnan val)
               then s ← getitem sums idx; Ok (<[idx := py_add s (py_abs val)]> sums)
               else Ok sums);
      add_abs_from (S idx) vals' sums'
  end.

(** The totals for each sample (lines 258-262). *)
Definition count_totals (cats : list Cat) : result (list num) :=
  first ← getitem cats 0;
  foldM (λ sums cat, add_abs_from 0 (data cat) sums)
        ((λ _, of_Z 0) <$> data first) cats.

(** The value stored at [values[sample_idx]] (lines 268-272). *)
Definition pct_value (val sum_for_sample : num) : result num :=
  if py_eq sum_for_sample (of_Z 0) then Ok (of_Z 0)
  else
    q ← py_truediv (float (py_add val (of_Z 0))) (float sum_for_sample);
    Ok (py_mul q (of_Z 100)).

(** The loop over [enumerate(values)], from index [idx] on; each entry is read
    before it is overwritten. *)
Fixpoint pct_values_from (idx : nat) (values : list num) (sums : list num)
    : result (list num) :=
  match values with
  | [] => Ok []
  | val :: values' =>
      sum_for_sample ← getitem sums idx;
      p ← pct_value val sum_for_sample;
      ps ← pct_values_from (S idx) values' sums;
      Ok (p :: ps)
  end.

Definition save_pct (sums : list num) (cat : Cat) : result Cat :=
  values ← pct_values_from 0 (data cat) sums;
  Ok (set_data_pct values cat).

(** Lines 257-273: the totals, then [data_pct] for each category. *)
Definition percentages (cats : list Cat) : result (list Cat) :=
  sums ← count_totals cats;
  mapM (save_pct sums) cats.

Definition pct_min (bm : Barmode) (ds : Dataset) : result num :=
  match bm with
  | group => min_of_min cat_data_pct ds
  | relative => min_of_negative_sums cat_data_pct ds
  end.

(** The body of the loop over the datasets when [add_pct_tab] is set. *)
Definition calc_pct (bm : Barmode) (ds : Dataset) : result Dataset :=
  cats' ← percentages (cats ds);
  let ds := set_cats cats' ds in
  m ← pct_min bm ds;
  let b := base ds in
  Ok (mkDataset
        (mkBaseDataset m (pct_range_xaxis_max b)
           (minallowed b) (maxallowed b) (showlegend b))
        (cats ds) (samples ds)).

(** ** Log tab (lines 286-291) *)

(** The sort key [lambda x: sum(x["data"])]. *)
Definition sort_key (cat : Cat) : num := py_sum (data cat).

(** [list.sort(key=...)] is a stable sort that compares keys with [<].  As
    long as [<] orders the keys totally (no NaN among them) the result of a
    stable sort is determined, so insertion of each element before the first
    one whose key is not smaller describes it. *)
Fixpoint sort_insert {A} (key : A → num) (x : A) (l : list A) : list A :=
  match l with
  | [] => [x]
  | y :: l' =>
      if py_lt (key y) (key x) then y :: sort_insert key x l'
      else x :: y :: l'
  end.

Fixpoint list_sort {A} (key : A → num) (l : list A) : list A :=
  match l with
  | [] => []
  | x :: l' => sort_insert key x (list_sort key l')
  end.

Definition log_tab_step (st : list Dataset * Layout) (ds : Dataset)
    : list Dataset * Layout :=
  (st.1 ++ [set_cats (list_sort sort_key (cats ds)) ds],
   mkLayout (layout_height st.2) (layout_barmode st.2) "reversed").

Definition log_tab (dss : list Dataset) (lay : Layout) : list Dataset * Layout :=
  foldl log_tab_step ([], lay) dss.

(** ** BarPlot.__init__ *)

Fixpoint zip3 {A B C} (l1 : list A) (l2 : list B) (l3 : list C) : list (A * B * C) :=
  match l1, l2, l3 with
  | a :: l1', b :: l2', c :: l3' => (a, b, c) :: zip3 l1' l2' l3'
  | _, _, _ => []
  end.

Section Init.
Variable split_long_string : string → list string.
Variable rgb_string : string → result string.

(** The stages in the order of the source.  Of the layout only the height,
    the barmode and the legend trace order are kept; axis titles, the choice
    of a hover format (lines 242-246) and trace parameters do not take part
    in what follows. *)
Definition BarPlot_init (self : Plot) (pconfig : gmap string pyval)
    (cats_lists : list (list Cat)) (samples_lists : list (list string))
    (max_n_samples : Z) : result BarPlot :=
  if negb (bool_decide (length cats_lists = length samples_lists))
  then Raise ValueError
  else
    dss ← mapM (λ '(d, cats, samples),
                  create split_long_string rgb_string d cats samples)
               (zip3 (plot_datasets self) cats_lists samples_lists);
    let bm := barmode pconfig in
    max_n_cats ← py_max_by Z.gtb ((λ ds, Z.of_nat (length (cats ds))) <$> dss);
    let lay :=
      mkLayout (height bm max_n_samples max_n_cats) bm
        (if bool_decide (bm ≠ group) then "normal" else "reversed") in
    dss ← mapM (set_ranges bm) dss;
    let dss := expand_dataset <$> dss in
    dss ← (if add_pct_tab self then mapM (calc_pct bm) dss else Ok dss);
    let '(dss, lay) := if add_log_tab self then log_tab dss lay else (dss, lay) in
    Ok (mkBarPlot dss lay).
End Init.

(** [plot] computes [max_n_samples] from the sample lists (line 38). *)
Definition max_n_samples (samples_lists : list (list string)) : result Z :=
  py_max_by Z.gtb ((λ samples, Z.of_nat (length samples)) <$> samples_lists).

(** Stand-ins for the two outside functions, used in the examples: names are
    left in one piece and every colour is accepted as it is. *)
Definition one_piece (s : string) : list string := [s].
Definition any_color (c : string) : result string := Ok c.

(** The scenario of the specification: samples A, B, C and the categories
    X = [1,2,3] and Y = [3,2,1]. *)
Definition cat_X : Cat := mkCat (Some "X") "red" [of_Z 1; of_Z 2; of_Z 3] None.
Definition cat_Y : Cat := mkCat (Some "Y") "blue" [of_Z 3; of_Z 2; of_Z 1] None.
Definition base0 : BaseDataset := mkBaseDataset (of_Z 0) (of_Z 100) None None true.
Definition ds_XY : Dataset := mkDataset base0 [cat_X; cat_Y] ["A"; "B"; "C"]%string.

(** * Reference notions

    The notions the properties below are stated with; they follow the wording
    of the specification, not the code. *)

Global Instance exn_eq_dec : EqDecision exn.
Proof. solve_decision. Defined.

Global Instance result_eq_dec {A} `{EqDecision A} : EqDecision (result A).
Proof. solve_decision. Defined.

Global Instance result_fmap : FMap result := λ A B f r,
  match r with
  | Ok a => Ok (f a)
  | Raise e => Raise e
  end.

(** A category that passes the name check and the colour parser. *)
Definition presentable (rgb_string : string → result string) (cat : Cat) : Prop :=
  is_Some (name cat) ∧ ∃ c, rgb_string (color cat) = Ok c.

Definition finite (x : num) : Prop := isnan x = false.

(** The order of the numbers; NaN is not comparable with anything. *)
Definition num_le (x y : num) : Prop :=
  match x, y with
  | Fin a, Fin b => (a ≤ b)%Qc
  | _, _ => False
  end.

Definition is_maximum (m : num) (l : list num) : Prop :=
  m ∈ l ∧ ∀ v, v ∈ l → num_le v m.

Definition is_minimum (m : num) (l : list num) : Prop :=
  m ∈ l ∧ ∀ v, v ∈ l → num_le m v.

(** The values of all series of a table at sample index [i]. *)
Definition col_at (tbl : list (list num)) (i : nat) : list num :=
  (λ l, nth i l (of_Z 0)) <$> tbl.

Definition data_table (ds : Dataset) : list (list num) := data <$> cats ds.


(** Every single value of the table, sample by sample. *)
Definition all_values (tbl : list (list num)) (n_samples : nat) : list num :=
  mjoin (col_at tbl <$> seq 0 n_samples).

Definition total (l : list num) : num := foldr py_add (of_Z 0) l.

(** Sum of only the positive, and of only the negative, values. *)
Definition positive_sum (l : list num) : num :=
  total (filter (λ v, py_lt (of_Z 0) v = true) l).
Definition negative_sum (l : list num) : num :=
  total (filter (λ v, py_lt v (of_Z 0) = true) l).

Definition positive_sums (tbl : list (list num)) (n_samples : nat) : list num :=
  (λ i, positive_sum (col_at tbl i)) <$> seq 0 n_samples.
Definition negative_sums (tbl : list (list num)) (n_samples : nat) : list num :=
  (λ i, negative_sum (col_at tbl i)) <$> seq 0 n_samples.

(** Sum of the absolute values of the values that are not NaN. *)
Definition abs_total (l : list num) : num :=
  total (py_abs <$> filter (λ v, isnan v = false) l).

(** (value / total) × 100, and 0 for a zero total. *)
Definition percent_of (v t : num) : num :=
  match t with
  | Fin b =>
      if decide (b = Q2Qc 0) then of_Z 0
      else match v with
           | Fin a => Fin (a / b * Q2Qc 100)%Qc
           | NaN => NaN
           end
  | NaN => NaN
  end.

(** Multiplying the value of every category at sample [i] by [k]. *)
Definition scale_sample (i : nat) (k : num) (cats : list Cat) : list Cat :=
  (λ cat, set_data (alter (py_mul k) i (data cat)) cat) <$> cats.

(** The percent series that [percentages] leaves in the categories. *)
Definition pct_series (cats : list Cat) : result (list (option (list num))) :=
  fmap (M:=result) (fmap (M:=list) data_pct) (percentages cats).

(** Ascending order of the keys. *)
Definition le_by {A} (key : A → num) (a b : A) : Prop := num_le (key a) (key b).
Definition key_le : Cat → Cat → Prop := le_by sort_key.

(** [tbl] holds, category by category, the series that [get] reads, each with
    one value per sample. *)
Definition series (get : Cat → result (list num)) (cats : list Cat)
    (tbl : list (list num)) (n_samples : nat) : Prop :=
  Forall2 (λ cat l, get cat = Ok l ∧ length l = n_samples) cats tbl.

(** What one value adds to the total of its sample, and the totals after one
    whole series has been added position by position. *)
Definition contribution (v : num) : num := if isnan v then of_Z 0 else py_abs v.

Fixpoint add_series (sums vals : list num) : list num :=
  match sums, vals with
  | s :: sums', v :: vals' => py_add s (contribution v) :: add_series sums' vals'
  | _, _ => sums
  end.

(** Closed equalities between numbers are decided by evaluation. *)
Ltac by_evaluation := apply (bool_decide_unpack _); vm_compute; exact I.

(** * The rest of the module: [plot], [create_figure], [save_data_file] *)

Section PlotEntry.
Variable split_long_string : string → list string.
Variable rgb_string : string → result string.

(** [plot] (lines 18-43) up to the call of [add_to_report]: the argument
    [max_n_samples] is evaluated before the constructor runs. *)
Definition plot (self : Plot) (cats_lists : list (list Cat))
    (samples_lists : list (list string)) (pconfig : gmap string pyval)
    : result BarPlot :=
  n ← max_n_samples samples_lists;
  BarPlot_init split_long_string rgb_string self pconfig cats_lists
    samples_lists n.
End PlotEntry.

(** [cat["name"]] *)
Definition cat_name (cat : Cat) : result string :=
  match name cat with
  | Some nm => Ok nm
  | None => Raise KeyError
  end.

(** One [go.Bar] trace of [create_figure], without the shared trace
    parameters: the sample axis, the values, the name and the marker colour.
    The [marker] entry of the trace parameters, which the constructor sets
    for every dataset (lines 232-237), is taken as present. *)
Record Trace : Type := mkTrace {
  trace_y : list string;
  trace_x : list num;
  trace_name : string;
  marker_color : string;
}.

(** The loop body of [create_figure] (lines 91-103). *)
Definition create_trace (ds : Dataset) (is_pct : bool) (cat : Cat) : result Trace :=
  d ← (if is_pct then cat_data_pct cat else cat_data cat);
  let c := ("rgb(" ++ color cat ++ ")")%string in
  nm ← cat_name cat;
  Ok (mkTrace (samples ds) d nm c).

Definition create_figure (ds : Dataset) (is_pct : bool) : result (list Trace) :=
  mapM (create_trace ds is_pct) (cats ds).

(** [save_data_file] (lines 301-307): the table handed to [write_data_file].
    [val_by_cat_by_sample] is a [defaultdict(dict)], so a sample that is not
    yet a key starts from the empty dict. *)
Definition set_val (s_name nm : string) (d_val : num)
    (tbl : gmap string (gmap string num)) : gmap string (gmap string num) :=
  <[s_name := <[nm := d_val]> (default ∅ (tbl !! s_name))]> tbl.

(** [for d_idx, d_val in enumerate(cat["data"])], from index [d_idx] on. *)
Fixpoint save_cat_from (samples : list string) (cat : Cat) (d_idx : nat)
    (vals : list num) (tbl : gmap string (gmap string num))
    : result (gmap string (gmap string num)) :=
  match vals with
  | [] => Ok tbl
  | d_val :: vals' =>
      s_name ← getitem samples d_idx;
      nm ← cat_name cat;
      save_cat_from samples cat (S d_idx) vals' (set_val s_name nm d_val tbl)
  end.

Definition val_by_cat_by_sample (ds : Dataset)
    : result (gmap string (gmap string num)) :=
  foldM (λ tbl cat, save_cat_from (samples ds) cat 0 (data cat) tbl) ∅ (cats ds).

(** Reading the table: the value of category [nm] at sample [s_name]. *)
Definition table_get (tbl : gmap string (gmap string num))
    (s_name nm : string) : option num :=
  row ← tbl !! s_name; row !! nm.

(** [axis_controlled_by_switches] and [tt_label] *)
Definition axis_controlled_by_switches : list string := ["xaxis"%string].
Definition tt_label : string := "%{meta}: <b>%{x}</b>".


(** A dataset as the later stages and the figure need it: at least one
    sample, every category with a name and one value per sample. *)
Definition well_shaped (ds : Dataset) : Prop :=
  samples ds ≠ [] ∧
  Forall (λ cat, is_Some (name cat) ∧ length (data cat) = length (samples ds))
    (cats ds).

(** Every category has a stored percent series, one value per sample. *)
Definition has_percentages (ds : Dataset) : Prop :=
  cats ds ≠ [] ∧
  Forall (λ cat, ∃ p, data_pct cat = Some p ∧ length p = length (samples ds))
    (cats ds).


(** * The percent stage in binary64

    Lines 257-273 once more, with Python's two kinds of numbers kept apart:
    an [int] is exact, a [float] is an IEEE 754 binary64 number (a primitive
    float), and [float(x)] rounds an int to the nearest binary64 number, ties
    to even, or raises [OverflowError].  The categories are given by their
    value lists [cat["data"]]. *)

Inductive pynumber : Type :=
  | PyInteger (z : Z)
  | PyFloat (f : PrimFloat.float).

(** [float(z)] for an int [z]. *)
Definition float_of_int (z : Z) : result PrimFloat.float :=
  let f := SF2Prim (binary_normalize prec emax z 0 false) in
  if PrimFloat.is_infinity f then Raise OverflowError else Ok f.

(** [float(x)] *)
Definition to_float (x : pynumber) : result PrimFloat.float :=
  match x with
  | PyInteger z => float_of_int z
  | PyFloat f => Ok f
  end.

(** [math.isnan(x)]: an int is converted first. *)
Definition isnan64 (x : pynumber) : result bool :=
  f ← to_float x; Ok (PrimFloat.is_nan f).

(** [abs(x)] *)
Definition abs64 (x : pynumber) : pynumber :=
  match x with
  | PyInteger z => PyInteger (Z.abs z)
  | PyFloat f => PyFloat (PrimFloat.abs f)
  end.

(** [x + y]: exact on two ints, in binary64 as soon as one is a float. *)
Definition add64 (x y : pynumber) : result pynumber :=
  match x, y with
  | PyInteger a, PyInteger b => Ok (PyInteger (a + b))
  | _, _ => a ← to_float x; b ← to_float y; Ok (PyFloat (PrimFloat.add a b))
  end.

(** [x == 0] *)
Definition is_zero64 (x : pynumber) : bool :=
  match x with
  | PyInteger z => z =? 0
  | PyFloat f => PrimFloat.eqb f 0%float
  end.

Fixpoint add_abs_from64 (idx : nat) (vals : list pynumber) (sums : list pynumber)
    : result (list pynumber) :=
  match vals with
  | [] => Ok sums
  | val :: vals' =>
      nan ← isnan64 val;
      sums' ← (if negb nan
               then s ← getitem sums idx;
                    s' ← add64 s (abs64 val);
                    Ok (<[idx := s']> sums)
               else Ok sums);
      add_abs_from64 (S idx) vals' sums'
  end.

Definition count_totals64 (tbl : list (list pynumber)) : result (list pynumber) :=
  first ← getitem tbl 0;
  foldM (λ sums d, add_abs_from64 0 d sums) ((λ _, PyInteger 0) <$> first) tbl.

(** [float(val + 0.0) / float(sum_for_sample) * 100.0], or the int 0. *)
Definition pct_value64 (val sum_for_sample : pynumber) : result pynumber :=
  if is_zero64 sum_for_sample then Ok (PyInteger 0)
  else
    v ← add64 val (PyFloat 0%float);
    a ← to_float v;
    b ← to_float sum_for_sample;
    if PrimFloat.eqb b 0%float then Raise ZeroDivisionError
    else Ok (PyFloat (PrimFloat.mul (PrimFloat.div a b) 100%float)).

Fixpoint pct_values_from64 (idx : nat) (values : list pynumber)
    (sums : list pynumber) : result (list pynumber) :=
  match values with
  | [] => Ok []
  | val :: values' =>
      sum_for_sample ← getitem sums idx;
      p ← pct_value64 val sum_for_sample;
      ps ← pct_values_from64 (S idx) values' sums;
      Ok (p :: ps)
  end.

(** The percent series of all categories. *)
Definition percentages64 (tbl : list (list pynumber))
    : result (list (list pynumber)) :=
  sums ← count_totals64 tbl;
  mapM (λ d, pct_values_from64 0 d sums) tbl.

(** ** What the percent stage stores

    A stored float is compared by its sign, mantissa and exponent. *)

Inductive stored_number : Type :=
  | StoredInt (z : Z)
  | StoredFloat (f : spec_float).

Definition stored (x : pynumber) : stored_number :=
  match x with
  | PyInteger z => StoredInt z
  | PyFloat f => StoredFloat (Prim2SF f)
  end.

Global Instance spec_float_eq_dec : EqDecision spec_float.
Proof. solve_decision. Defined.

Global Instance stored_number_eq_dec : EqDecision stored_number.
Proof. solve_decision. Defined.

Definition stored_percentages (tbl : list (list pynumber))
    : result (list (list stored_number)) :=
  (λ pcts : list (list pynumber),
     (λ p : list pynumber, stored <$> p) <$> pcts) <$> percentages64 tbl.

(** Two categories with the ints [a] and [b] at a sample get the same stored
    percent values when both are multiplied by [k]. *)
Definition scaled_alike (a b k : Z) : Prop :=
  stored_percentages [[PyInteger (k * a)]; [PyInteger (k * b)]]
  = stored_percentages [[PyInteger a]; [PyInteger b]].

Global Instance scaled_alike_dec a b k : Decision (scaled_alike a b k).
Proof. unfold scaled_alike. apply _. Defined.

(** ** Datasets with a missing value *)




(** Samples A, B, C with the categories in descending order of their sums:
    Z = [4, 4, 4] (12), then X = [1, 2, 3] (6), then W = [1, 0, 1] (2). *)
Definition cat_Z : Cat := mkCat (Some "Z") "green" [of_Z 4; of_Z 4; of_Z 4] None.
Definition cat_W : Cat := mkCat (Some "W") "black" [of_Z 1; of_Z 0; of_Z 1] None.
Definition ds_ZXW : Dataset :=
  mkDataset base0 [cat_Z; cat_X; cat_W] ["A"; "B"; "C"]%string.

(** * Properties *)

(** ** Barmode *)

Lemma in_group_normal_None_spec v :
  in_group_normal_None v = true ↔
  v = PyNone ∨ v = PyStr "group" ∨ v = PyStr "normal".
Proof.
  destruct v as [|s|b|z]; simpl.
  - split; [by left | done].
  - rewrite orb_true_iff, !bool_decide_eq_true.
    split.
    + intros [-> | ->]; auto.
    + intros [[=] | [[= ->] | [= ->]]]; auto.
  - split; [done | intros [[=] | [[=] | [=]]]].
  - split; [done | intros [[=] | [[=] | [=]]]].
Qed.

(** C3, as stated, fails: with no [stacking] key in the configuration the
    plot is stacked ([relative]), not grouped. *)
Lemma barmode_absent_is_relative :
  barmode (∅ : gmap string pyval) = relative ∧
  barmode (∅ : gmap string pyval) ≠ group.
Proof. split; [reflexivity | discriminate]. Qed.

(** C3, amended: the plot is grouped exactly when the [stacking] key is
    present and its value is [None], ["group"] or ["normal"]; when the key is
    absent or holds anything else the plot is stacked. *)
Theorem barmode_selection (pconfig : gmap string pyval) :
  (barmode pconfig = group ↔
     ∃ v, pconfig !! "stacking" = Some v ∧
          (v = PyNone ∨ v = PyStr "group" ∨ v = PyStr "normal")) ∧
  (barmode pconfig = relative ↔
     pconfig !! "stacking" = None ∨
     ∃ v, pconfig !! "stacking" = Some v ∧
          v ≠ PyNone ∧ v ≠ PyStr "group" ∧ v ≠ PyStr "normal").
Proof.
  unfold barmode.
  destruct (pconfig !! "stacking") as [v|] eqn:E.
  - pose proof (in_group_normal_None_spec v) as Hv.
    destruct (in_group_normal_None v); split; split; try done.
    + intros _. exists v. split; [done | by apply Hv].
    + intros [[=] | (w & [= <-] & Hn & Hg & Hm)].
      destruct (proj1 Hv eq_refl) as [|[|]]; done.
    + intros (w & [= <-] & Hw). apply Hv in Hw. done.
    + intros _. right. exists v. split; [done |].
      repeat split; intros ->; enough (false = true) by done; apply Hv; auto.
  - split; split; try done.
    + intros (v & [=] & _).
    + intros _. by left.
Qed.

(** ** Chart height *)

Lemma n_bars_to_size_allowance n : n_bars_to_size n = per_bar_allowance n.
Proof.
  unfold n_bars_to_size, per_bar_allowance.
  repeat case_decide;
    repeat match goal with
           | |- context [?k <=? n] => destruct (Z.leb_spec k n)
           end; lia.
Qed.

Lemma n_bars_effective bm s c : n_bars bm s c = effective_bar_count bm s c.
Proof. by destruct bm. Qed.

Lemma n_bars_to_size_pos n : 15 ≤ n_bars_to_size n ≤ 35.
Proof.
  unfold n_bars_to_size.
  repeat match goal with
         | |- context [?k <=? n] => destruct (Z.leb_spec k n)
         end; lia.
Qed.

(** C2, as stated, fails: 100 samples in a stacked plot with one category
    give 800 pixels, where the stated formula gives 1500 + 140 = 1640. *)
Lemma height_is_not_documented_height :
  height relative 100 1 = 800 ∧
  documented_height relative 100 1 = 1640 ∧
  height relative 100 1 ≠ documented_height relative 100 1.
Proof. repeat split; vm_compute; congruence. Qed.

(** C2, amended: the final height is
    clamp(min(660, max(base height, legend height)) + 140, [300, 2560]), with
    base height, per-bar allowance, effective bar count and legend height as
    stated; it agrees with the stated formula exactly when
    max(base height, legend height) is at most 660. *)
Theorem height_formula (bm : Barmode) (samples cats : Z) :
  height bm samples cats = capped_height bm samples cats ∧
  (height bm samples cats = documented_height bm samples cats ↔
     Z.max (base_height bm samples cats) (19 * cats) ≤ 660).
Proof.
  unfold height, height_before_margin, capped_height, documented_height,
    base_height, clamp, legend_height, HEIGHT_PER_LEGEND_ITEM, MIN_HEIGHT,
    MAX_HEIGHT.
  rewrite n_bars_effective, n_bars_to_size_allowance.
  cbv zeta. lia.
Qed.

(** C4, as stated, fails: in a stacked plot with one category, going from 9
    to 10 samples lowers the height from 410 to 390 (the per-bar allowance
    drops from 30 to 25 pixels). *)
Lemma height_not_monotone :
  height relative 9 1 = 410 ∧ height relative 10 1 = 390 ∧
  ¬ (∀ bm cats n m, n ≤ m → height bm n cats ≤ height bm m cats).
Proof.
  repeat split; try reflexivity.
  intros H. specialize (H relative 1 9 10). vm_compute in H. by apply H.
Qed.

(** C4, amended: for every barmode and every input the height lies in
    [300, 2560]; for a fixed non-negative category count it is non-decreasing
    between two sample counts whose bar counts get the same per-bar
    allowance. *)
Theorem height_range_and_band_monotone (bm : Barmode) (cats n m : Z) :
  (300 ≤ height bm n cats ≤ 2560) ∧
  (0 ≤ cats → n ≤ m →
   n_bars_to_size (n_bars bm n cats) = n_bars_to_size (n_bars bm m cats) →
   height bm n cats ≤ height bm m cats).
Proof.
  split.
  - unfold height, MIN_HEIGHT, MAX_HEIGHT. cbv zeta. lia.
  - intros Hc Hnm Hband.
    unfold height, height_before_margin, MIN_HEIGHT, MAX_HEIGHT. cbv zeta.
    rewrite <- Hband.
    pose proof (n_bars_to_size_pos (n_bars bm n cats)) as Hs.
    assert (n_bars bm n cats ≤ n_bars bm m cats) as Hb
      by (destruct bm; simpl; nia).
    assert (n_bars bm n cats * n_bars_to_size (n_bars bm n cats)
            ≤ n_bars bm m cats * n_bars_to_size (n_bars bm n cats)) by nia.
    lia.
Qed.

Lemma height_range_and_band_monotone_witness :
  300 ≤ height group 2 3 ≤ 2560 ∧ height group 2 3 ≤ height group 3 3.
Proof.
  split.
  - apply (height_range_and_band_monotone group 3 2 3).
  - apply (height_range_and_band_monotone group 3 2 3); [lia | lia | reflexivity].
Defined.

(** C10: the height before the margin is at most 660, the final height is at
    most 800, and taking the minimum with [MAX_HEIGHT] changes nothing. *)
Theorem height_at_most_800 (bm : Barmode) (max_n_samples max_n_cats : Z) :
  height_before_margin bm max_n_samples max_n_cats ≤ 660 ∧
  height bm max_n_samples max_n_cats ≤ 800 ∧
  Z.min MAX_HEIGHT (height_before_margin bm max_n_samples max_n_cats + 140)
  = height_before_margin bm max_n_samples max_n_cats + 140.
Proof.
  unfold height, height_before_margin, MIN_HEIGHT, MAX_HEIGHT. cbv zeta. lia.
Qed.

(** ** Category checks and zero padding *)

Section CreateFacts.
Variable split_long_string : string → list string.
Variable rgb_string : string → result string.

Lemma create_cat_presentable samples cat :
  presentable rgb_string cat →
  (length samples = length (data cat) →
     ∃ cat', create_cat split_long_string rgb_string samples cat = Ok cat') ∧
  (length samples ≠ length (data cat) →
     create_cat split_long_string rgb_string samples cat = Raise AssertionError).
Proof.
  intros [[nm Hnm] [c Hc]]. unfold create_cat. rewrite Hnm. simpl.
  rewrite Hc. simpl. split; intros Hlen.
  - rewrite bool_decide_eq_true_2 by done. eauto.
  - by rewrite bool_decide_eq_false_2.
Qed.

Lemma mapM_create_cat samples cats :
  Forall (presentable rgb_string) cats →
  (Forall (λ cat, length (data cat) = length samples) cats →
     ∃ cats', mapM (create_cat split_long_string rgb_string samples) cats
              = Ok cats') ∧
  (¬ Forall (λ cat, length (data cat) = length samples) cats →
     mapM (create_cat split_long_string rgb_string samples) cats
     = Raise AssertionError).
Proof.
  induction 1 as [|cat cats Hcat _ [IHok IHbad]]; split.
  - intros _. by exists [].
  - intros []. constructor.
  - intros Hall. apply Forall_cons in Hall as [Hlen Hall].
    destruct (create_cat_presentable samples cat Hcat) as [Hok _].
    destruct (Hok (eq_sym Hlen)) as [cat' Hcat'].
    destruct (IHok Hall) as [cats' Hcats'].
    exists (cat' :: cats'). simpl. rewrite Hcat'. simpl. by rewrite Hcats'.
  - intros Hnot.
    destruct (create_cat_presentable samples cat Hcat) as [Hok Hbad].
    destruct (decide (length samples = length (data cat))) as [Hlen|Hlen].
    + destruct (Hok Hlen) as [cat' Hcat'].
      simpl. rewrite Hcat'. simpl. rewrite IHbad; [done |].
      intros Hall. apply Hnot. by constructor.
    + simpl. by rewrite (Hbad Hlen).
Qed.
End CreateFacts.

Lemma expand_data_short n (d : list num) :
  (length d ≤ n)%nat →
  expand_data n d = d ++ replicate (n - length d) (of_Z 0) ∧
  length (expand_data n d) = n.
Proof.
  intros Hle. unfold expand_data. case_bool_decide as Hlt.
  - split; [done |]. rewrite length_app, length_replicate. lia.
  - assert (length d = n) as Hn by lia.
    rewrite Hn, Nat.sub_diag. simpl. by rewrite app_nil_r.
Qed.

(** What [create] returns has one value per sample in every category, so the
    padding stage finds nothing to pad in it. *)
Lemma mapM_create_cat_shape split_long_string rgb_string samples cats cats' :
  mapM (create_cat split_long_string rgb_string samples) cats = Ok cats' →
  Forall (λ cat, length (data cat) = length samples) cats'.
Proof.
  revert cats'. induction cats as [|cat cats IH]; intros cats' H.
  - injection H as <-. constructor.
  - simpl in H.
    destruct (create_cat split_long_string rgb_string samples cat)
      as [cat1|] eqn:E1; [| discriminate].
    simpl in H.
    destruct (mapM (create_cat split_long_string rgb_string samples) cats)
      as [cats1|] eqn:E2; [| discriminate].
    injection H as <-. constructor; [| by apply IH].
    unfold create_cat in E1. destruct (name cat); [| discriminate].
    simpl in E1. destruct (rgb_string (color cat)); [| discriminate].
    simpl in E1. case_bool_decide; [| discriminate].
    injection E1 as <-. done.
Qed.

Lemma create_Ok_shape split_long_string rgb_string dataset cs ss ds :
  create split_long_string rgb_string dataset cs ss = Ok ds →
  samples ds = ss ∧
  Forall (λ cat, length (data cat) = length (samples ds)) (cats ds).
Proof.
  unfold create. intros H.
  destruct (mapM (create_cat split_long_string rgb_string ss) cs)
    as [cats'|] eqn:E; [| discriminate].
  injection H as <-. split; [done |].
  by apply mapM_create_cat_shape in E.
Qed.

Lemma expand_dataset_same (ds : Dataset) :
  Forall (λ cat, length (data cat) = length (samples ds)) (cats ds) →
  expand_dataset ds = ds.
Proof.
  destruct ds as [b cs ss]. unfold expand_dataset, set_cats. simpl.
  intros Hlen. f_equal.
  induction Hlen as [|cat cs Hcat _ IH]; [done |].
  rewrite fmap_cons, IH. f_equal.
  destruct cat as [nm c d p]. unfold set_data, expand_data. simpl in *.
  rewrite bool_decide_eq_false_2 by lia. done.
Qed.

(** The whole constructor on the scenario, stacked, with the percent and the
    log tab: height 300, range [0, 4], percent minimum 0, legend reversed. *)
Example BarPlot_init_XY :
  ∃ p ds,
    BarPlot_init one_piece any_color (mkPlot [base0] true true) ∅
      [[cat_X; cat_Y]] [["A"; "B"; "C"]%string] 3 = Ok p ∧
    datasets p = [ds] ∧
    layout_height (layout p) = 300 ∧
    layout_barmode (layout p) = relative ∧
    legend_traceorder (layout p) = "reversed" ∧
    maxallowed (base ds) = Some (of_Z 4) ∧
    minallowed (base ds) = Some (of_Z 0) ∧
    pct_range_xaxis_min (base ds) = of_Z 0 ∧
    data_pct <$> cats ds
    = [Some [of_Z 25; of_Z 50; of_Z 75]; Some [of_Z 75; of_Z 50; of_Z 25]].
Proof.
  eexists _, _. split; [vm_compute; reflexivity |].
  split; [reflexivity |]. do 3 (split; [reflexivity |]).
  repeat split; by_evaluation.
Qed.

(** C1, as stated, fails: a category with the single value 5 against three
    samples is not accepted; [create] stops at its length assertion, and so
    does the construction of the whole plot. *)
Lemma create_rejects_shorter_data :
  create one_piece any_color base0
    [mkCat (Some "X") "red" [of_Z 5] None] ["A"; "B"; "C"]%string
  = Raise AssertionError ∧
  BarPlot_init one_piece any_color (mkPlot [base0] false false) ∅
    [[mkCat (Some "X") "red" [of_Z 5] None]] [["A"; "B"; "C"]%string] 3
  = Raise AssertionError.
Proof. split; reflexivity. Qed.

(** C1, amended: for categories that have a name and a colour the parser
    accepts, [create] succeeds exactly when every category has as many values
    as there are samples, and raises [AssertionError] as soon as one has
    fewer or more; the padding stage, given a sequence no longer than the
    sample count, appends zeros up to the sample count, so that [5] against
    three samples becomes [5, 0, 0]. *)
Theorem create_needs_equal_length
    (split_long_string : string → list string)
    (rgb_string : string → result string)
    (dataset : BaseDataset) (cats : list Cat) (samples : list string) :
  Forall (presentable rgb_string) cats →
  ((∃ ds, create split_long_string rgb_string dataset cats samples = Ok ds) ↔
     Forall (λ cat, length (data cat) = length samples) cats) ∧
  (¬ Forall (λ cat, length (data cat) = length samples) cats →
     create split_long_string rgb_string dataset cats samples
     = Raise AssertionError) ∧
  (∀ (d : list num) (n : nat), (length d ≤ n)%nat →
     expand_data n d = d ++ replicate (n - length d) (of_Z 0) ∧
     length (expand_data n d) = n) ∧
  expand_data 3 [of_Z 5] = [of_Z 5; of_Z 0; of_Z 0].
Proof.
  intros Hp.
  destruct (mapM_create_cat split_long_string rgb_string samples cats Hp)
    as [Hok Hbad].
  assert (¬ Forall (λ cat, length (data cat) = length samples) cats →
          create split_long_string rgb_string dataset cats samples
          = Raise AssertionError) as Hraise.
  { intros Hnot. unfold create. by rewrite (Hbad Hnot). }
  split; [|split; [done|split; [intros d n; apply expand_data_short | reflexivity]]].
  split.
  - intros [ds Hds].
    destruct (decide (Forall (λ cat, length (data cat) = length samples) cats))
      as [|Hnot]; [done |].
    rewrite (Hraise Hnot) in Hds. discriminate.
  - intros Hall. destruct (Hok Hall) as [cats' Hcats'].
    unfold create. rewrite Hcats'. simpl. eauto.
Qed.

Lemma create_needs_equal_length_witness :
  (∃ ds, create one_piece any_color base0 [cat_X; cat_Y] ["A"; "B"; "C"]%string
         = Ok ds) ∧
  expand_data 3 [of_Z 5] = [of_Z 5; of_Z 0; of_Z 0].
Proof.
  assert (Forall (presentable any_color) [cat_X; cat_Y]) as Hp.
  { repeat constructor; simpl; eauto. }
  destruct (create_needs_equal_length one_piece any_color base0
              [cat_X; cat_Y] ["A"; "B"; "C"]%string Hp) as (Hiff & _ & _ & Hex).
  split; [| exact Hex].
  apply Hiff. repeat constructor.
Defined.

(** ** The order of the numbers and the builtins [max] and [min] *)

Lemma num_le_finite x y : num_le x y → finite x ∧ finite y.
Proof. by destruct x, y. Qed.

Lemma num_le_refl x : finite x → num_le x x.
Proof. destruct x; [intros _; apply Qcle_refl | done]. Qed.

Lemma num_le_trans x y z : num_le x y → num_le y z → num_le x z.
Proof. destruct x, y, z; simpl; try done. apply Qcle_trans. Qed.

Lemma py_lt_true x y : py_lt x y = true → num_le x y.
Proof.
  destruct x, y; simpl; try done.
  intros H%bool_decide_eq_true. by apply Qclt_le_weak.
Qed.

Lemma py_lt_false x y : finite x → finite y → py_lt x y = false → num_le y x.
Proof.
  destruct x, y; simpl; try done.
  intros _ _ H%bool_decide_eq_false. by apply Qcnot_lt_le.
Qed.

Lemma foldl_max_spec (l : list num) (cur : num) :
  finite cur → Forall finite l →
  foldl (λ cur item, if py_gt item cur then item else cur) cur l ∈ cur :: l ∧
  ∀ v, v ∈ cur :: l →
       num_le v (foldl (λ cur item, if py_gt item cur then item else cur) cur l).
Proof.
  revert cur. induction l as [|x l IH]; intros cur Hcur Hl; simpl.
  - split; [set_solver |]. intros v ->%list_elem_of_singleton.
    by apply num_le_refl.
  - apply Forall_cons in Hl as [Hx Hl]. change (py_gt x cur) with (py_lt cur x).
    destruct (py_lt cur x) eqn:E.
    + destruct (IH x Hx Hl) as [Hin Hub]. split; [set_solver |].
      intros v [->|Hv]%elem_of_cons.
      * apply (num_le_trans _ x); [exact (py_lt_true _ _ E) | apply Hub; set_solver].
      * apply Hub, Hv.
    + destruct (IH cur Hcur Hl) as [Hin Hub]. split; [set_solver |].
      intros v [->|[->|Hv]%elem_of_cons]%elem_of_cons.
      * apply Hub; set_solver.
      * apply (num_le_trans _ cur);
          [exact (py_lt_false cur x Hcur Hx E) | apply Hub; set_solver].
      * apply Hub; set_solver.
Qed.

Lemma foldl_min_spec (l : list num) (cur : num) :
  finite cur → Forall finite l →
  foldl (λ cur item, if py_lt item cur then item else cur) cur l ∈ cur :: l ∧
  ∀ v, v ∈ cur :: l →
       num_le (foldl (λ cur item, if py_lt item cur then item else cur) cur l) v.
Proof.
  revert cur. induction l as [|x l IH]; intros cur Hcur Hl; simpl.
  - split; [set_solver |]. intros v ->%list_elem_of_singleton.
    by apply num_le_refl.
  - apply Forall_cons in Hl as [Hx Hl].
    destruct (py_lt x cur) eqn:E.
    + destruct (IH x Hx Hl) as [Hin Hlb]. split; [set_solver |].
      intros v [->|Hv]%elem_of_cons.
      * apply (num_le_trans _ x); [apply Hlb; set_solver | exact (py_lt_true _ _ E)].
      * apply Hlb, Hv.
    + destruct (IH cur Hcur Hl) as [Hin Hlb]. split; [set_solver |].
      intros v [->|[->|Hv]%elem_of_cons]%elem_of_cons.
      * apply Hlb; set_solver.
      * apply (num_le_trans _ cur);
          [apply Hlb; set_solver | exact (py_lt_false x cur Hx Hcur E)].
      * apply Hlb; set_solver.
Qed.

Lemma py_max_spec (l : list num) :
  l ≠ [] → Forall finite l → ∃ m, py_max l = Ok m ∧ is_maximum m l.
Proof.
  destruct l as [|x l]; [done |]. intros _ [Hx Hl]%Forall_cons.
  eexists. split; [reflexivity |]. by apply foldl_max_spec.
Qed.

Lemma py_min_spec (l : list num) :
  l ≠ [] → Forall finite l → ∃ m, py_min l = Ok m ∧ is_minimum m l.
Proof.
  destruct l as [|x l]; [done |]. intros _ [Hx Hl]%Forall_cons.
  eexists. split; [reflexivity |]. by apply foldl_min_spec.
Qed.

Lemma is_maximum_finite m l : is_maximum m l → finite m.
Proof. intros [Hin Hub]. by destruct (num_le_finite _ _ (Hub m Hin)). Qed.

Lemma is_minimum_finite m l : is_minimum m l → finite m.
Proof. intros [Hin Hlb]. by destruct (num_le_finite _ _ (Hlb m Hin)). Qed.

(** The maximum of the maxima of the columns is the maximum of all values. *)
Lemma is_maximum_concat (cols : list (list num)) (rows : list num) (m : num) :
  Forall2 (λ col r, is_maximum r col) cols rows →
  is_maximum m rows → is_maximum m (mjoin cols).
Proof.
  intros Hrows [Hin Hub]. split.
  - apply list_elem_of_lookup in Hin as [i Hi].
    destruct (Forall2_lookup_r _ _ _ _ _ Hrows Hi) as (col & Hcol & [Hm _]).
    apply list_elem_of_join. exists col. split; [done |].
    by apply list_elem_of_lookup_2 in Hcol.
  - intros v (col & Hv & Hcol)%list_elem_of_join.
    apply list_elem_of_lookup in Hcol as [i Hi].
    destruct (Forall2_lookup_l _ _ _ _ _ Hrows Hi) as (r & Hr & [_ Hr']).
    eapply num_le_trans; [by apply Hr' |].
    apply Hub. by apply list_elem_of_lookup_2 in Hr.
Qed.

Lemma is_minimum_concat (cols : list (list num)) (rows : list num) (m : num) :
  Forall2 (λ col r, is_minimum r col) cols rows →
  is_minimum m rows → is_minimum m (mjoin cols).
Proof.
  intros Hrows [Hin Hlb]. split.
  - apply list_elem_of_lookup in Hin as [i Hi].
    destruct (Forall2_lookup_r _ _ _ _ _ Hrows Hi) as (col & Hcol & [Hm _]).
    apply list_elem_of_join. exists col. split; [done |].
    by apply list_elem_of_lookup_2 in Hcol.
  - intros v (col & Hv & Hcol)%list_elem_of_join.
    apply list_elem_of_lookup in Hcol as [i Hi].
    destruct (Forall2_lookup_l _ _ _ _ _ Hrows Hi) as (r & Hr & [_ Hr']).
    eapply num_le_trans; [| by apply Hr'].
    apply Hlb. by apply list_elem_of_lookup_2 in Hr.
Qed.

(** ** Comprehensions that do not raise *)

Lemma mapM_Ok_fmap {A B} (f : A → result B) (g : A → B) (l : list A) :
  (∀ x, x ∈ l → f x = Ok (g x)) → mapM f l = Ok (g <$> l).
Proof.
  induction l as [|x l IH]; intros Hf; [done |].
  simpl. rewrite (Hf x) by set_solver. simpl.
  rewrite IH by (intros y Hy; apply Hf; set_solver). done.
Qed.

Lemma mapM_Ok_Forall2 {A B} (f : A → result B) (P : A → B → Prop) (l : list A) :
  (∀ x, x ∈ l → ∃ y, f x = Ok y ∧ P x y) →
  ∃ ys, mapM f l = Ok ys ∧ Forall2 P l ys.
Proof.
  induction l as [|x l IH]; intros Hf.
  - exists []. by split.
  - destruct (Hf x) as (y & Hy & HP); [set_solver |].
    destruct IH as (ys & Hys & HPs); [intros z Hz; apply Hf; set_solver |].
    exists (y :: ys). simpl. rewrite Hy. simpl. rewrite Hys. simpl.
    split; [done | by constructor].
Qed.

Lemma lookup_nth_lt (l : list num) (i : nat) :
  (i < length l)%nat → l !! i = Some (nth i l (of_Z 0)).
Proof.
  intros Hi. destruct (lookup_lt_is_Some_2 l i Hi) as [x Hx].
  rewrite Hx. f_equal. symmetry. by apply nth_lookup_Some.
Qed.

Lemma getitem_nth (l : list num) (i : nat) :
  (i < length l)%nat → getitem l i = Ok (nth i l (of_Z 0)).
Proof.
  intros Hi. unfold getitem. rewrite nth_lookup.
  destruct (lookup_lt_is_Some_2 l i Hi) as [x ->]. done.
Qed.

Lemma column_series get cats tbl n i :
  series get cats tbl n → (i < n)%nat →
  column get cats i = Ok (col_at tbl i).
Proof.
  intros Hser Hi. unfold column, col_at.
  induction Hser as [|cat l cats tbl [Hget Hlen] _ IH]; [done |].
  simpl. rewrite Hget. simpl. rewrite getitem_nth by lia. simpl.
  by rewrite IH.
Qed.

(** ** Sums *)

Lemma py_add_comm x y : py_add x y = py_add y x.
Proof. destruct x, y; simpl; try done. f_equal. ring. Qed.

Lemma py_add_assoc x y z : py_add x (py_add y z) = py_add (py_add x y) z.
Proof. destruct x, y, z; simpl; try done. f_equal. ring. Qed.

Lemma py_add_0_l x : py_add (of_Z 0) x = x.
Proof.
  destruct x; simpl; try done. f_equal.
  change (Q2Qc (inject_Z 0)) with 0%Qc. ring.
Qed.

Lemma py_add_0_r x : py_add x (of_Z 0) = x.
Proof. by rewrite py_add_comm, py_add_0_l. Qed.

Lemma foldl_py_add a l : foldl py_add a l = py_add a (total l).
Proof.
  revert a. induction l as [|x l IH]; intros a; simpl.
  - by rewrite py_add_0_r.
  - by rewrite IH, py_add_assoc.
Qed.

Lemma py_sum_total l : py_sum l = total l.
Proof. unfold py_sum. by rewrite foldl_py_add, py_add_0_l. Qed.

Lemma total_finite l : Forall finite l → finite (total l).
Proof.
  induction 1 as [|x l Hx _ IH]; [done |].
  simpl. by destruct x, (total l).
Qed.

Lemma py_sum_only_positive l : py_sum (only_positive <$> l) = positive_sum l.
Proof.
  rewrite py_sum_total. unfold positive_sum.
  induction l as [|x l IH]; [done |].
  rewrite fmap_cons, filter_cons. cbn [total foldr].
  fold (total (only_positive <$> l)). rewrite IH.
  unfold only_positive, py_gt.
  case_decide as Hx; [by rewrite Hx |].
  apply not_true_is_false in Hx. by rewrite Hx, py_add_0_l.
Qed.

Lemma py_sum_only_negative l : py_sum (only_negative <$> l) = negative_sum l.
Proof.
  rewrite py_sum_total. unfold negative_sum.
  induction l as [|x l IH]; [done |].
  rewrite fmap_cons, filter_cons. cbn [total foldr].
  fold (total (only_negative <$> l)). rewrite IH.
  unfold only_negative.
  case_decide as Hx; [by rewrite Hx |].
  apply not_true_is_false in Hx. by rewrite Hx, py_add_0_l.
Qed.

Lemma positive_sum_finite l : finite (positive_sum l).
Proof.
  apply total_finite, Forall_forall. intros v [Hv _]%list_elem_of_filter.
  by destruct v.
Qed.

Lemma negative_sum_finite l : finite (negative_sum l).
Proof.
  apply total_finite, Forall_forall. intros v [Hv _]%list_elem_of_filter.
  by destruct v.
Qed.

(** ** The four range formulas, for any series of the categories *)

Lemma col_at_finite tbl i : Forall (Forall finite) tbl → Forall finite (col_at tbl i).
Proof.
  intros Hfin. unfold col_at. apply Forall_fmap.
  eapply Forall_impl; [exact Hfin |]. intros l Hl. simpl.
  rewrite nth_lookup. destruct (l !! i) as [x|] eqn:E; [| done].
  simpl. eapply Forall_lookup_1; eauto.
Qed.

Section Ranges.
Variable get : Cat → result (list num).
Variable ds : Dataset.
Variable tbl : list (list num).
Hypothesis Hser : series get (cats ds) tbl (length (samples ds)).
Hypothesis Hsamples : samples ds ≠ [].

Lemma sample_range_nonempty : sample_range ds ≠ [].
Proof using Hsamples.
  unfold sample_range. intros Hnil. apply Hsamples, nil_length_inv.
  apply (f_equal length) in Hnil. by rewrite length_seq in Hnil.
Qed.

Lemma column_in_range i :
  i ∈ sample_range ds → column get (cats ds) i = Ok (col_at tbl i).
Proof using Hser.
  intros Hi%elem_of_seq. eapply column_series; [exact Hser | lia].
Qed.

Lemma max_of_positive_sums_spec :
  ∃ m, max_of_positive_sums get ds = Ok m ∧
       is_maximum m (positive_sums tbl (length (samples ds))).
Proof using Hser Hsamples.
  unfold max_of_positive_sums.
  rewrite (mapM_Ok_fmap _ (λ i, positive_sum (col_at tbl i))).
  - simpl. apply py_max_spec.
    + intros Hnil%fmap_nil_inv. by apply sample_range_nonempty.
    + apply Forall_fmap, Forall_forall. intros i _. apply positive_sum_finite.
  - intros i Hi. rewrite (column_in_range i Hi). simpl.
    by rewrite py_sum_only_positive.
Qed.

Lemma min_of_negative_sums_spec :
  ∃ m, min_of_negative_sums get ds = Ok m ∧
       is_minimum m (negative_sums tbl (length (samples ds))).
Proof using Hser Hsamples.
  unfold min_of_negative_sums.
  rewrite (mapM_Ok_fmap _ (λ i, negative_sum (col_at tbl i))).
  - simpl. apply py_min_spec.
    + intros Hnil%fmap_nil_inv. by apply sample_range_nonempty.
    + apply Forall_fmap, Forall_forall. intros i _. apply negative_sum_finite.
  - intros i Hi. rewrite (column_in_range i Hi). simpl.
    by rewrite py_sum_only_negative.
Qed.

Hypothesis Hcats : tbl ≠ [].
Hypothesis Hfin : Forall (Forall finite) tbl.

Lemma max_of_max_spec :
  ∃ m, max_of_max get ds = Ok m ∧
       is_maximum m (all_values tbl (length (samples ds))).
Proof using Hser Hsamples Hcats Hfin.
  unfold max_of_max.
  destruct (mapM_Ok_Forall2
              (λ i, col ← column get (cats ds) i; py_max col)
              (λ i r, is_maximum r (col_at tbl i)) (sample_range ds))
    as (rows & Hrows & HF).
  { intros i Hi. rewrite (column_in_range i Hi). simpl.
    apply py_max_spec; [| by apply col_at_finite].
    by intros Hnil%fmap_nil_inv. }
  rewrite Hrows. simpl.
  destruct (py_max_spec rows) as (m & Hm & Hmax).
  { intros ->. apply Forall2_nil_inv_r in HF.
    by apply sample_range_nonempty. }
  { apply Forall_forall. intros r Hr.
    apply list_elem_of_lookup in Hr as [i Hi].
    destruct (Forall2_lookup_r _ _ _ _ _ HF Hi) as (j & _ & Hj).
    by eapply is_maximum_finite. }
  exists m. split; [done |].
  apply (is_maximum_concat _ rows); [| done].
  by apply Forall2_fmap_l.
Qed.

Lemma min_of_min_spec :
  ∃ m, min_of_min get ds = Ok m ∧
       is_minimum m (all_values tbl (length (samples ds))).
Proof using Hser Hsamples Hcats Hfin.
  unfold min_of_min.
  destruct (mapM_Ok_Forall2
              (λ i, col ← column get (cats ds) i; py_min col)
              (λ i r, is_minimum r (col_at tbl i)) (sample_range ds))
    as (rows & Hrows & HF).
  { intros i Hi. rewrite (column_in_range i Hi). simpl.
    apply py_min_spec; [| by apply col_at_finite].
    by intros Hnil%fmap_nil_inv. }
  rewrite Hrows. simpl.
  destruct (py_min_spec rows) as (m & Hm & Hmin).
  { intros ->. apply Forall2_nil_inv_r in HF.
    by apply sample_range_nonempty. }
  { apply Forall_forall. intros r Hr.
    apply list_elem_of_lookup in Hr as [i Hi].
    destruct (Forall2_lookup_r _ _ _ _ _ HF Hi) as (j & _ & Hj).
    by eapply is_minimum_finite. }
  exists m. split; [done |].
  apply (is_minimum_concat _ rows); [| done].
  by apply Forall2_fmap_l.
Qed.
End Ranges.

(** ** Absolute ranges *)

Lemma series_data (ds : Dataset) :
  Forall (λ cat, length (data cat) = length (samples ds)) (cats ds) →
  series cat_data (cats ds) (data_table ds) (length (samples ds)).
Proof.
  intros Hlen. unfold series, data_table. apply Forall2_fmap_r.
  apply Forall_Forall2_diag. eapply Forall_impl; [exact Hlen |].
  by intros cat Hcat.
Qed.

Lemma set_ranges_Ok bm ds mx mn :
  xmax_cnt bm ds = Ok mx → xmin_cnt bm ds = Ok mn →
  ∃ ds', set_ranges bm ds = Ok ds' ∧
         maxallowed (base ds') = Some mx ∧ minallowed (base ds') = Some mn ∧
         cats ds' = cats ds ∧ samples ds' = samples ds.
Proof.
  intros Hmx Hmn. unfold set_ranges. rewrite Hmx. simpl. rewrite Hmn. simpl.
  eexists. by split.
Qed.




(** ** Totals and percentages *)

Lemma getitem_middle {A} (pre : list A) (x : A) (rest : list A) :
  getitem (pre ++ x :: rest) (length pre) = Ok x.
Proof. unfold getitem. by rewrite list_lookup_middle. Qed.

Lemma add_abs_from_prefix (vals pre rest : list num) :
  (length vals ≤ length rest)%nat →
  add_abs_from (length pre) vals (pre ++ rest) = Ok (pre ++ add_series rest vals).
Proof.
  revert pre rest. induction vals as [|v vals IH]; intros pre rest Hlen.
  - simpl. by destruct rest.
  - destruct rest as [|s rest]; [simpl in Hlen; lia |].
    simpl in Hlen. cbn [add_abs_from add_series].
    assert ((if negb (isnan v)
             then s0 ← getitem (pre ++ s :: rest) (length pre);
                  Ok (<[length pre := py_add s0 (py_abs v)]> (pre ++ s :: rest))
             else Ok (pre ++ s :: rest))
            = Ok ((pre ++ [py_add s (contribution v)]) ++ rest)) as ->.
    { unfold contribution. destruct (isnan v); simpl.
      - by rewrite py_add_0_r, <- app_assoc.
      - rewrite getitem_middle. simpl.
        rewrite insert_app_r_alt, Nat.sub_diag by lia. simpl.
        by rewrite <- app_assoc. }
    simpl.
    replace (S (length pre)) with (length (pre ++ [py_add s (contribution v)]))
      by (rewrite length_app; simpl; lia).
    rewrite IH by lia. by rewrite <- app_assoc.
Qed.

Lemma add_abs_from_0 (vals sums : list num) :
  (length vals ≤ length sums)%nat →
  add_abs_from 0 vals sums = Ok (add_series sums vals).
Proof. intros Hlen. by apply (add_abs_from_prefix vals [] sums). Qed.

Lemma length_add_series sums vals : length (add_series sums vals) = length sums.
Proof.
  revert vals. induction sums as [|s sums IH]; intros [|v vals]; simpl; auto.
Qed.

Lemma foldM_add_series (cats : list Cat) (sums : list num) :
  Forall (λ cat, length (data cat) = length sums) cats →
  foldM (λ sums cat, add_abs_from 0 (data cat) sums) sums cats
  = Ok (foldl add_series sums (data <$> cats)).
Proof.
  revert sums. induction cats as [|cat cats IH]; intros sums Hlen; [done |].
  apply Forall_cons in Hlen as [Hcat Hlen].
  simpl. rewrite add_abs_from_0 by lia. simpl.
  apply IH. eapply Forall_impl; [exact Hlen |].
  intros c Hc. simpl in Hc. by rewrite length_add_series.
Qed.

Lemma add_series_lookup sums vals i :
  length vals = length sums → (i < length sums)%nat →
  nth i (add_series sums vals) (of_Z 0)
  = py_add (nth i sums (of_Z 0)) (contribution (nth i vals (of_Z 0))).
Proof.
  revert vals i. induction sums as [|s sums IH]; intros [|v vals] i Hlen Hi;
    simpl in *; try lia.
  destruct i as [|i]; [done |]. apply IH; lia.
Qed.

Lemma abs_total_cons v l :
  abs_total (v :: l) = py_add (contribution v) (abs_total l).
Proof.
  unfold abs_total, contribution. rewrite filter_cons.
  case_decide as Hv.
  - by rewrite Hv.
  - destruct (isnan v); [| done]. by rewrite py_add_0_l.
Qed.

Lemma foldl_add_series_nth (tbl : list (list num)) (sums : list num) (i : nat) :
  Forall (λ l, length l = length sums) tbl → (i < length sums)%nat →
  length (foldl add_series sums tbl) = length sums ∧
  nth i (foldl add_series sums tbl) (of_Z 0)
  = py_add (nth i sums (of_Z 0)) (abs_total (col_at tbl i)).
Proof.
  revert sums. induction tbl as [|l tbl IH]; intros sums Hlen Hi.
  - simpl. split; [done |]. unfold abs_total. simpl. by rewrite py_add_0_r.
  - apply Forall_cons in Hlen as [Hl Hlen]. cbn [foldl].
    change (col_at (l :: tbl) i) with (nth i l (of_Z 0) :: col_at tbl i).
    destruct (IH (add_series sums l)) as [IHlen IHnth].
    { eapply Forall_impl; [exact Hlen |].
      intros l' Hl'. simpl in Hl'. by rewrite length_add_series. }
    { by rewrite length_add_series. }
    rewrite length_add_series in IHlen. split; [done |].
    rewrite IHnth, add_series_lookup by done.
    by rewrite abs_total_cons, py_add_assoc.
Qed.

Lemma count_totals_spec (cats : list Cat) (n : nat) :
  cats ≠ [] → Forall (λ cat, length (data cat) = n) cats →
  ∃ sums, count_totals cats = Ok sums ∧ length sums = n ∧
          ∀ i, (i < n)%nat →
               sums !! i = Some (abs_total (col_at (data <$> cats) i)).
Proof.
  intros Hne Hlen. destruct cats as [|c0 cats]; [done |].
  set (zeros := (λ _ : num, of_Z 0) <$> data c0).
  assert (count_totals (c0 :: cats)
          = foldM (λ sums cat, add_abs_from 0 (data cat) sums) zeros (c0 :: cats))
    as -> by reflexivity.
  assert (length zeros = n) as Hz.
  { unfold zeros. rewrite length_fmap. by apply Forall_cons in Hlen as [? _]. }
  rewrite foldM_add_series.
  2: { eapply Forall_impl; [exact Hlen |]. intros c Hc. simpl in Hc. congruence. }
  eexists. split; [reflexivity |].
  assert (Forall (λ l, length l = length zeros) (data <$> c0 :: cats)) as Hlen'.
  { apply Forall_fmap. eapply Forall_impl; [exact Hlen |].
    intros c Hc. simpl in *. congruence. }
  split.
  - destruct n as [|n].
    + destruct zeros; [| done].
      clear. induction (data <$> c0 :: cats) as [|l tbl IH]; [done |].
      simpl. by destruct l.
    + destruct (foldl_add_series_nth _ zeros 0 Hlen') as [Hl _]; lia.
  - intros i Hi.
    destruct (foldl_add_series_nth _ zeros i Hlen') as [Hl Hnth]; [lia |].
    rewrite lookup_nth_lt by lia. f_equal. rewrite Hnth.
    assert (nth i zeros (of_Z 0) = of_Z 0) as ->.
    { rewrite nth_lookup. unfold zeros. rewrite list_lookup_fmap.
      by destruct (data c0 !! i). }
    apply py_add_0_l.
Qed.

Lemma pct_value_percent_of (v t : num) : pct_value v t = Ok (percent_of v t).
Proof.
  unfold pct_value, percent_of, float.
  destruct t as [b|]; simpl.
  - change (Q2Qc (inject_Z 0)) with 0%Qc.
    destruct (decide (b = 0%Qc)) as [->|Hb].
    + by rewrite bool_decide_eq_true_2.
    + rewrite bool_decide_eq_false_2 by done.
      destruct v as [a|]; simpl; [| done].
      rewrite bool_decide_eq_false_2 by done. simpl.
      do 2 f_equal. change (Q2Qc (inject_Z 100)) with (Q2Qc 100).
      by rewrite Qcplus_0_r.
  - by destruct v.
Qed.

Lemma pct_values_from_prefix (vals pre rest : list num) :
  (length vals ≤ length rest)%nat →
  pct_values_from (length pre) vals (pre ++ rest)
  = Ok (zip_with percent_of vals rest).
Proof.
  revert pre rest. induction vals as [|v vals IH]; intros pre rest Hlen; [done |].
  destruct rest as [|s rest]; [simpl in Hlen; lia |].
  simpl in Hlen. cbn [pct_values_from].
  rewrite getitem_middle. simpl. rewrite pct_value_percent_of. simpl.
  assert (pct_values_from (S (length pre)) vals (pre ++ s :: rest)
          = Ok (zip_with percent_of vals rest)) as ->; [| done].
  rewrite <- (IH (pre ++ [s]) rest) by lia.
  rewrite length_app, <- app_assoc. simpl. by rewrite Nat.add_1_r.
Qed.

Lemma save_pct_spec (sums : list num) (cat : Cat) :
  (length (data cat) ≤ length sums)%nat →
  save_pct sums cat = Ok (set_data_pct (zip_with percent_of (data cat) sums) cat).
Proof.
  intros Hlen. unfold save_pct.
  pose proof (pct_values_from_prefix (data cat) [] sums Hlen) as Hp.
  simpl in Hp. by rewrite Hp.
Qed.

Lemma percentages_spec (cats : list Cat) (n : nat) :
  cats ≠ [] → Forall (λ cat, length (data cat) = n) cats →
  ∃ sums, count_totals cats = Ok sums ∧ length sums = n ∧
          (∀ i, (i < n)%nat →
                sums !! i = Some (abs_total (col_at (data <$> cats) i))) ∧
          percentages cats
          = Ok ((λ cat, set_data_pct (zip_with percent_of (data cat) sums) cat)
                  <$> cats).
Proof.
  intros Hne Hlen.
  destruct (count_totals_spec cats n Hne Hlen) as (sums & Hsums & Hl & Hi).
  exists sums. repeat split; try done.
  unfold percentages. rewrite Hsums. simpl.
  apply mapM_Ok_fmap. intros cat Hcat. apply save_pct_spec.
  rewrite Forall_forall in Hlen. rewrite (Hlen cat Hcat). lia.
Qed.





(** ** The percent range *)







(** ** Scaling one sample *)

Section Scaling.
Variable k : Qc.
Hypothesis Hk : (0 < k)%Qc.

Lemma py_mul_add x y :
  py_mul (Fin k) (py_add x y) = py_add (py_mul (Fin k) x) (py_mul (Fin k) y).
Proof. destruct x, y; simpl; try done. f_equal. ring. Qed.

Lemma py_mul_zero : py_mul (Fin k) (of_Z 0) = of_Z 0.
Proof.
  unfold of_Z. simpl. f_equal. change (Q2Qc (inject_Z 0)) with 0%Qc. ring.
Qed.

Lemma contribution_scaled v :
  contribution (py_mul (Fin k) v) = py_mul (Fin k) (contribution v).
Proof using Hk.
  destruct v as [a|]; [| exact (eq_sym py_mul_zero)].
  unfold contribution. simpl. f_equal. rewrite Qcabs_Qcmult. f_equal.
  apply Qcabs_pos. by apply Qclt_le_weak.
Qed.

Lemma abs_total_scaled l :
  abs_total (py_mul (Fin k) <$> l) = py_mul (Fin k) (abs_total l).
Proof using Hk.
  induction l as [|v l IH].
  - exact (eq_sym py_mul_zero).
  - rewrite fmap_cons, !abs_total_cons, IH, contribution_scaled.
    by rewrite py_mul_add.
Qed.

Lemma percent_of_scaled v t :
  percent_of (py_mul (Fin k) v) (py_mul (Fin k) t) = percent_of v t.
Proof using Hk.
  assert (k ≠ 0%Qc) as Hk0 by (by apply not_eq_sym, Qclt_not_eq).
  destruct t as [b|]; [| by destruct v].
  unfold percent_of. cbn [py_mul].
  destruct (decide (b = Q2Qc 0)) as [->|Hb].
  - destruct v; simpl; rewrite decide_True; try done; apply Qcmult_0_r.
  - assert (k * b ≠ 0)%Qc as Hkb.
    { intros [?|?]%Qcmult_integral; done. }
    destruct v as [a|]; cbn [py_mul]; rewrite decide_False by done; [| done].
    f_equal. field. by split.
Qed.

Lemma nth_alter_other (l : list num) i j :
  i ≠ j → nth j (alter (py_mul (Fin k)) i l) (of_Z 0) = nth j l (of_Z 0).
Proof. intros Hij. by rewrite !nth_lookup, list_lookup_alter_ne. Qed.

Lemma nth_alter_same (l : list num) i :
  nth i (alter (py_mul (Fin k)) i l) (of_Z 0)
  = py_mul (Fin k) (nth i l (of_Z 0)).
Proof.
  rewrite !nth_lookup, list_lookup_alter_eq.
  destruct (l !! i); [done | exact (eq_sym py_mul_zero)].
Qed.

Lemma col_at_scaled_other cats i j :
  i ≠ j →
  col_at (data <$> scale_sample i (Fin k) cats) j = col_at (data <$> cats) j.
Proof.
  intros Hij. unfold col_at, scale_sample. rewrite <- !list_fmap_compose.
  apply list_fmap_ext. intros _ cat _. simpl. by apply nth_alter_other.
Qed.

Lemma col_at_scaled_same cats i :
  col_at (data <$> scale_sample i (Fin k) cats) i
  = py_mul (Fin k) <$> col_at (data <$> cats) i.
Proof.
  unfold col_at, scale_sample. rewrite <- !list_fmap_compose.
  apply list_fmap_ext. intros _ cat _. simpl. by apply nth_alter_same.
Qed.
End Scaling.

(** Scaling small ints in binary64: checked for every pair of ints between
    -20 and 20 and every factor between 1 and 10. *)
Lemma scaled_alike_checked :
  Forall (λ a, Forall (λ b, Forall (λ k, scaled_alike a b k) (seqZ 1 10))
                 (seqZ (-20) 41)) (seqZ (-20) 41).
Proof. by_evaluation. Qed.

Lemma scaled_alike_small_ints (a b k : Z) :
  -20 ≤ a ≤ 20 → -20 ≤ b ≤ 20 → 1 ≤ k ≤ 10 → scaled_alike a b k.
Proof.
  intros Ha Hb Hk. pose proof scaled_alike_checked as H.
  rewrite Forall_forall in H.
  assert (a ∈ seqZ (-20) 41) as Hina by (apply elem_of_seqZ; lia).
  specialize (H a Hina). rewrite Forall_forall in H.
  assert (b ∈ seqZ (-20) 41) as Hinb by (apply elem_of_seqZ; lia).
  specialize (H b Hinb). rewrite Forall_forall in H.
  apply H, elem_of_seqZ. lia.
Qed.

(** In binary64 the scenario of the specification comes out exactly. *)
Example percentages64_XY :
  percentages64
    [[PyInteger 1; PyInteger 2; PyInteger 3];
     [PyInteger 3; PyInteger 2; PyInteger 1]]
  = Ok [[PyFloat 25; PyFloat 50; PyFloat 75];
        [PyFloat 75; PyFloat 50; PyFloat 25]].
Proof. vm_compute. reflexivity. Qed.

(** C8, as stated, fails: with the ints 2^53 and 1 at a sample the code
    stores 100.0 for the first category ([float(2^53 + 1)] is 2^53); with both
    values multiplied by 3 it stores 99.999999999999986, written
    0x1.8ffffffffffffp+6 below ([float(3·2^53 + 3)] is 3·2^53 + 4). *)
Lemma percent_changes_under_scaling_in_binary64 :
  percentages64 [[PyInteger (2 ^ 53)]; [PyInteger 1]]
  = Ok [[PyFloat 100]; [PyFloat 0x1.9p-47]] ∧
  percentages64 [[PyInteger (3 * 2 ^ 53)]; [PyInteger (3 * 1)]]
  = Ok [[PyFloat 0x1.8ffffffffffffp+6]; [PyFloat 0x1.8ffffffffffffp-47]] ∧
  PrimFloat.ltb 0x1.8ffffffffffffp+6 100 = true.
Proof. repeat split; vm_compute; reflexivity. Qed.

(** C8, amended: evaluated in exact arithmetic, as the formula
    value / total × 100 reads over the rationals (NaN kept apart), the percent
    values are scale-invariant: for categories with one value per sample,
    multiplying the value of every category at one sample by the same
    positive constant leaves every percent series as it was, and the percent
    stage succeeds.  The values the code stores are these rounded to
    binary64: they are the same before and after scaling for two categories
    with ints between -20 and 20 at a sample and a factor between 1 and 10,
    where no conversion rounds; beyond that, rounding can tell the two sides
    apart. *)
Theorem percent_scale_invariant (cats : list Cat) (n i : nat) (k : Qc) :
  (0 < k)%Qc → cats ≠ [] → Forall (λ cat, length (data cat) = n) cats →
  (∃ pcts, pct_series cats = Ok pcts ∧ length pcts = length cats) ∧
  pct_series (scale_sample i (Fin k) cats) = pct_series cats ∧
  (∀ a b j : Z, -20 ≤ a ≤ 20 → -20 ≤ b ≤ 20 → 1 ≤ j ≤ 10 →
     stored_percentages [[PyInteger (j * a)]; [PyInteger (j * b)]]
     = stored_percentages [[PyInteger a]; [PyInteger b]]).
Proof.
  intros Hk Hne Hlen.
  cut ((∃ pcts, pct_series cats = Ok pcts ∧ length pcts = length cats) ∧
       pct_series (scale_sample i (Fin k) cats) = pct_series cats).
  { intros [H1 H2]. split; [exact H1 |]. split; [exact H2 |].
    intros a b j Ha Hb Hj. by apply scaled_alike_small_ints. }
  destruct (percentages_spec cats n Hne Hlen) as (sums & _ & Hl & Hi & Hp).
  assert (scale_sample i (Fin k) cats ≠ []) as Hne'.
  { unfold scale_sample. by intros ?%fmap_nil_inv. }
  assert (Forall (λ cat, length (data cat) = n) (scale_sample i (Fin k) cats))
    as Hlen'.
  { unfold scale_sample. apply Forall_fmap.
    eapply Forall_impl; [exact Hlen |]. intros cat Hcat. simpl.
    by rewrite length_alter. }
  destruct (percentages_spec _ n Hne' Hlen') as (sums' & _ & Hl' & Hi' & Hp').
  unfold pct_series. rewrite Hp, Hp'. simpl. split.
  { eexists. split; [reflexivity |]. by rewrite !length_fmap. }
  f_equal. unfold scale_sample. rewrite <- !list_fmap_compose.
  apply list_fmap_ext. intros _ cat Hcat%list_elem_of_lookup_2. simpl. f_equal.
  rewrite Forall_forall in Hlen. specialize (Hlen cat Hcat).
  apply list_eq. intros j. rewrite !lookup_zip_with.
  destruct (decide (j < n)%nat) as [Hj|Hj].
  2: { rewrite (lookup_ge_None_2 sums), (lookup_ge_None_2 sums') by lia.
       by destruct (alter _ _ _ !! j), (data cat !! j). }
  rewrite (Hi j Hj), (Hi' j Hj).
  destruct (decide (i = j)) as [->|Hij].
  - rewrite list_lookup_alter_eq, (col_at_scaled_same k), (abs_total_scaled k Hk).
    destruct (data cat !! j) as [v|]; [| done].
    exact (f_equal Some (percent_of_scaled k Hk v _)).
  - by rewrite list_lookup_alter_ne, (col_at_scaled_other k).
Qed.

Lemma percent_scale_invariant_witness :
  pct_series (scale_sample 1 (Fin (Q2Qc 7)) [cat_X; cat_Y])
  = pct_series [cat_X; cat_Y] ∧
  stored_percentages [[PyInteger (7 * 2)]; [PyInteger (7 * 2)]]
  = stored_percentages [[PyInteger 2]; [PyInteger 2]].
Proof.
  assert ((0 < Q2Qc 7)%Qc) as Hk by reflexivity.
  assert ([cat_X; cat_Y] ≠ []) as Hne by discriminate.
  assert (Forall (λ cat, length (data cat) = 3%nat) [cat_X; cat_Y]) as Hlen
    by repeat constructor.
  destruct (percent_scale_invariant [cat_X; cat_Y] 3 1 (Q2Qc 7) Hk Hne Hlen)
    as (_ & Hexact & Hstored).
  split; [exact Hexact |]. apply Hstored; lia.
Defined.

(** ** Sorting for the log tab *)

Section Sorting.
Context {A : Type} (key : A → num).

#[local] Abbreviation le := (le_by key).

Lemma sort_insert_Permutation x l : sort_insert key x l ≡ₚ x :: l.
Proof.
  induction l as [|y l IH]; [done |]. simpl.
  destruct (py_lt (key y) (key x)); [| done].
  rewrite IH. apply Permutation_swap.
Qed.

Lemma list_sort_Permutation l : list_sort key l ≡ₚ l.
Proof.
  induction l as [|x l IH]; [done |]. simpl.
  by rewrite sort_insert_Permutation, IH.
Qed.

Lemma sort_insert_StronglySorted x l :
  finite (key x) → Forall (λ a, finite (key a)) l →
  StronglySorted le l → StronglySorted le (sort_insert key x l).
Proof.
  intros Hx Hfin Hsorted.
  induction Hsorted as [|y l Hl IH Hy]; simpl.
  - repeat constructor.
  - apply Forall_cons in Hfin as [Hyfin Hfin].
    destruct (py_lt (key y) (key x)) eqn:E.
    + constructor; [by apply IH |].
      rewrite sort_insert_Permutation. constructor; [| done].
      by apply py_lt_true.
    + assert (le x y) as Hxy by (by apply py_lt_false).
      constructor; [by constructor |].
      constructor; [done |].
      eapply Forall_impl; [exact Hy |].
      intros z Hz. by apply (num_le_trans _ (key y)).
Qed.

Lemma list_sort_StronglySorted l :
  Forall (λ a, finite (key a)) l → StronglySorted le (list_sort key l).
Proof.
  induction 1 as [|x l Hx Hl IH]; simpl; [constructor |].
  apply sort_insert_StronglySorted; [done | | done].
  by rewrite list_sort_Permutation.
Qed.


End Sorting.

Lemma foldl_log_tab_step (dss acc : list Dataset) (lay : Layout) :
  foldl log_tab_step (acc, lay) dss
  = (acc ++ ((λ ds, set_cats (list_sort sort_key (cats ds)) ds) <$> dss),
     match dss with
     | [] => lay
     | _ :: _ => mkLayout (layout_height lay) (layout_barmode lay) "reversed"
     end).
Proof.
  revert acc lay. induction dss as [|ds dss IH]; intros acc lay; simpl.
  - by rewrite app_nil_r.
  - unfold log_tab_step at 2. rewrite IH. simpl. rewrite <- app_assoc. simpl.
    by destruct dss.
Qed.




(** On that dataset the categories Z, X, W (sums 12, 6, 2) come back as
    W, X, Z. *)
Example log_tab_ZXW :
  (λ ds, name <$> cats ds)
    <$> (log_tab [ds_ZXW] (mkLayout 300 relative "normal")).1
  = [[Some "W"; Some "X"; Some "Z"]]%string.
Proof. vm_compute. reflexivity. Qed.


(** * Further properties of the module *)

(** ** Comprehensions, continued *)

Lemma mapM_Ok_inv {A B} (f : A → result B) (l : list A) (ys : list B) :
  mapM f l = Ok ys → Forall2 (λ x y, f x = Ok y) l ys.
Proof.
  revert ys. induction l as [|x l IH]; intros ys H.
  - injection H as <-. constructor.
  - simpl in H. destruct (f x) as [y|] eqn:Ex; [| discriminate].
    simpl in H. destruct (mapM f l) as [ys'|] eqn:El; [| discriminate].
    injection H as <-. constructor; [done | by apply IH].
Qed.

Lemma mapM_Raise_at {A B} (f : A → result B) (pre post : list A) (x : A) e :
  (∀ y, y ∈ pre → ∃ z, f y = Ok z) → f x = Raise e →
  mapM f (pre ++ x :: post) = Raise e.
Proof.
  intros Hpre Hx. induction pre as [|y pre IH]; simpl.
  - by rewrite Hx.
  - destruct (Hpre y) as [z Hz]; [set_solver |]. rewrite Hz. simpl.
    rewrite IH; [done |]. intros y' Hy'. apply Hpre. set_solver.
Qed.

Lemma foldl_max_Z_spec (l : list Z) (cur : Z) :
  foldl (λ cur item, if Z.gtb item cur then item else cur) cur l ∈ cur :: l ∧
  ∀ v, v ∈ cur :: l →
       v ≤ foldl (λ cur item, if Z.gtb item cur then item else cur) cur l.
Proof.
  revert cur. induction l as [|x l IH]; intros cur; simpl.
  - split; [set_solver |]. intros v ->%list_elem_of_singleton. lia.
  - destruct (Z.gtb_spec x cur) as [Hgt|Hle].
    + destruct (IH x) as [Hin Hub]. split; [set_solver |].
      intros v [->|Hv]%elem_of_cons.
      * assert (x ≤ foldl (λ cur item, if Z.gtb item cur then item else cur) x l)
          by (apply Hub; set_solver).
        lia.
      * by apply Hub.
    + destruct (IH cur) as [Hin Hub]. split; [set_solver |].
      intros v [->|[->|Hv]%elem_of_cons]%elem_of_cons.
      * apply Hub; set_solver.
      * assert (cur ≤ foldl (λ cur item, if Z.gtb item cur then item else cur) cur l)
          by (apply Hub; set_solver).
        lia.
      * apply Hub; set_solver.
Qed.

Lemma py_max_Z_spec (l : list Z) :
  l ≠ [] → ∃ m, py_max_by Z.gtb l = Ok m ∧ m ∈ l ∧ ∀ v, v ∈ l → v ≤ m.
Proof.
  destruct l as [|x l]; [done |]. intros _.
  eexists. split; [reflexivity |]. apply foldl_max_Z_spec.
Qed.

(** ** The entry point and the constructor: what makes them fail *)

(** X1: [plot] raises [ValueError] when it is given no sample list at all;
    otherwise it runs the constructor with the greatest number of samples of
    any tab. *)
Theorem plot_max_n_samples
    (split_long_string : string → list string)
    (rgb_string : string → result string)
    (self : Plot) (cats_lists : list (list Cat))
    (samples_lists : list (list string)) (pconfig : gmap string pyval) :
  (samples_lists = [] →
   plot split_long_string rgb_string self cats_lists samples_lists pconfig
   = Raise ValueError) ∧
  (samples_lists ≠ [] →
   ∃ n : nat,
     plot split_long_string rgb_string self cats_lists samples_lists pconfig
     = BarPlot_init split_long_string rgb_string self pconfig cats_lists
         samples_lists (Z.of_nat n) ∧
     (∃ samples, samples ∈ samples_lists ∧ length samples = n) ∧
     ∀ samples, samples ∈ samples_lists → (length samples ≤ n)%nat).
Proof.
  split.
  - intros ->. reflexivity.
  - intros Hne. unfold plot, max_n_samples.
    destruct (py_max_Z_spec ((λ s, Z.of_nat (length s)) <$> samples_lists))
      as (m & Hm & Hin & Hub).
    { by intros ?%fmap_nil_inv. }
    apply list_elem_of_fmap in Hin as (s0 & -> & Hs0).
    exists (length s0). rewrite Hm. simpl. split; [done |].
    split; [by exists s0 |].
    intros s Hs. assert (Z.of_nat (length s) ≤ Z.of_nat (length s0)); [| lia].
    apply Hub, list_elem_of_fmap. by exists s.
Qed.

Lemma plot_max_n_samples_witness :
  plot one_piece any_color (mkPlot [base0] false false) [[cat_X; cat_Y]] [] ∅
  = Raise ValueError.
Proof.
  apply (plot_max_n_samples one_piece any_color (mkPlot [base0] false false)
           [[cat_X; cat_Y]] [] ∅).
  reflexivity.
Defined.

(** X2: the constructor raises [ValueError] when the numbers of category
    lists and of sample lists differ, and also when there is nothing to plot:
    no category list, or no base dataset. *)
Theorem BarPlot_init_ValueError
    (split_long_string : string → list string)
    (rgb_string : string → result string)
    (self : Plot) (pconfig : gmap string pyval)
    (cats_lists : list (list Cat)) (samples_lists : list (list string))
    (n : Z) :
  length cats_lists ≠ length samples_lists ∨ cats_lists = [] ∨
  plot_datasets self = [] →
  BarPlot_init split_long_string rgb_string self pconfig cats_lists
    samples_lists n = Raise ValueError.
Proof.
  intros H. unfold BarPlot_init.
  destruct (decide (length cats_lists = length samples_lists)) as [Heq|Hne].
  2: { by rewrite bool_decide_eq_false_2. }
  rewrite bool_decide_eq_true_2 by done. simpl.
  assert (zip3 (plot_datasets self) cats_lists samples_lists = []) as ->.
  { destruct H as [H|[->| ->]]; [done | | done].
    by destruct (plot_datasets self). }
  reflexivity.
Qed.

Lemma BarPlot_init_ValueError_witness :
  BarPlot_init one_piece any_color (mkPlot [base0] false false) ∅
    [[cat_X; cat_Y]] [] 3 = Raise ValueError.
Proof.
  apply BarPlot_init_ValueError. left. simpl. lia.
Defined.

(** ** Chart height, continued *)

(** X3: the height reaches its greatest value, 800, exactly from 44 bars or
    from 35 categories on, and stays at its least value, 300, exactly up to
    5 bars with at most 8 categories. *)
Theorem height_saturation (bm : Barmode) (max_n_samples max_n_cats : Z) :
  (height bm max_n_samples max_n_cats = 800 ↔
     44 ≤ n_bars bm max_n_samples max_n_cats ∨ 35 ≤ max_n_cats) ∧
  (height bm max_n_samples max_n_cats = 300 ↔
     n_bars bm max_n_samples max_n_cats ≤ 5 ∧ max_n_cats ≤ 8).
Proof.
  unfold height, height_before_margin, legend_height, HEIGHT_PER_LEGEND_ITEM,
    MIN_HEIGHT, MAX_HEIGHT, n_bars_to_size.
  cbv zeta. generalize (n_bars bm max_n_samples max_n_cats). intros b.
  repeat match goal with
         | |- context [?k <=? b] => destruct (Z.leb_spec k b)
         end; lia.
Qed.

(** ** [create], continued *)

Section CreateMore.
Variable split_long_string : string → list string.
Variable rgb_string : string → result string.

Lemma create_cat_Ok_inv ss cat cat' :
  create_cat split_long_string rgb_string ss cat = Ok cat' →
  ∃ nm, name cat = Some nm ∧
        name cat' = Some (String.concat "<br>" (split_long_string nm)) ∧
        rgb_string (color cat) = Ok (color cat') ∧
        data cat' = data cat ∧ data_pct cat' = data_pct cat ∧
        length (data cat) = length ss.
Proof.
  unfold create_cat. destruct (name cat) as [nm|] eqn:En; [| discriminate].
  simpl. destruct (rgb_string (color cat)) as [c|] eqn:Ec; [| discriminate].
  simpl. case_bool_decide as Hlen; [| discriminate].
  intros [= <-]. exists nm. by repeat split.
Qed.
End CreateMore.

(** X4: when [create] succeeds, the dataset carries the base dataset and
    the samples it was given and as many categories, in the same order, with
    the same values; every category had a name, now the pieces of
    [split_long_string] joined by ["<br>"], its colour is what the parser
    made of the old one, and it has one value per sample. *)
Theorem create_keeps_data
    (split_long_string : string → list string)
    (rgb_string : string → result string)
    (dataset : BaseDataset) (cs : list Cat) (ss : list string) (ds : Dataset) :
  create split_long_string rgb_string dataset cs ss = Ok ds →
  base ds = dataset ∧ samples ds = ss ∧
  data <$> cats ds = data <$> cs ∧
  Forall2 (λ cat cat',
     ∃ nm, name cat = Some nm ∧
           name cat' = Some (String.concat "<br>" (split_long_string nm)) ∧
           rgb_string (color cat) = Ok (color cat') ∧
           data_pct cat' = data_pct cat ∧
           length (data cat') = length ss) cs (cats ds).
Proof.
  unfold create. intros H.
  destruct (mapM (create_cat split_long_string rgb_string ss) cs)
    as [cs'|] eqn:E; [| discriminate].
  injection H as <-. simpl. do 2 (split; [done |]).
  apply mapM_Ok_inv in E.
  split.
  - induction E as [|cat cat' cs cs' Hc _ IH]; [done |].
    rewrite !fmap_cons, IH. f_equal.
    by destruct (create_cat_Ok_inv _ _ _ _ _ Hc) as (nm & _ & _ & _ & -> & _).
  - eapply Forall2_impl; [exact E |]. intros cat cat' Hc. simpl in Hc.
    destruct (create_cat_Ok_inv _ _ _ _ _ Hc)
      as (nm & Hn & Hn' & Hcol & Hd & Hp & Hl).
    exists nm. rewrite Hd. by repeat split.
Qed.

Lemma create_keeps_data_witness :
  ∃ ds, create one_piece any_color base0 [cat_X; cat_Y] ["A"; "B"; "C"]%string
        = Ok ds ∧
        data <$> cats ds = data <$> [cat_X; cat_Y].
Proof.
  eexists. split; [reflexivity |].
  eapply (create_keeps_data one_piece any_color base0 [cat_X; cat_Y]
            ["A"; "B"; "C"]%string).
  reflexivity.
Defined.

(** X5: the first category that fails decides the exception of [create],
    and within a category the name is checked before the colour and the
    colour before the length: a missing name gives [ValueError], an exception
    of the colour parser is passed on, a wrong number of values gives
    [AssertionError]. *)
Theorem create_first_failure
    (split_long_string : string → list string)
    (rgb_string : string → result string)
    (dataset : BaseDataset) (pre post : list Cat) (cat : Cat) (ss : list string)
    (pre' : list Cat) :
  mapM (create_cat split_long_string rgb_string ss) pre = Ok pre' →
  (name cat = None →
   create split_long_string rgb_string dataset (pre ++ cat :: post) ss
   = Raise ValueError) ∧
  (∀ e, is_Some (name cat) → rgb_string (color cat) = Raise e →
   create split_long_string rgb_string dataset (pre ++ cat :: post) ss
   = Raise e) ∧
  (is_Some (name cat) → (∃ c, rgb_string (color cat) = Ok c) →
   length (data cat) ≠ length ss →
   create split_long_string rgb_string dataset (pre ++ cat :: post) ss
   = Raise AssertionError).
Proof.
  intros Hpre.
  assert (∀ e, create_cat split_long_string rgb_string ss cat = Raise e →
               create split_long_string rgb_string dataset (pre ++ cat :: post) ss
               = Raise e) as Hraise.
  { intros e He. unfold create. rewrite (mapM_Raise_at _ pre post cat e); try done.
    intros y Hy. apply mapM_Ok_inv in Hpre.
    apply list_elem_of_lookup in Hy as [i Hi].
    destruct (Forall2_lookup_l _ _ _ _ _ Hpre Hi) as (z & _ & Hz). eauto. }
  repeat split.
  - intros Hn. apply Hraise. unfold create_cat. by rewrite Hn.
  - intros e [nm Hn] He. apply Hraise. unfold create_cat. rewrite Hn. simpl.
    by rewrite He.
  - intros [nm Hn] [c Hc] Hlen. apply Hraise. unfold create_cat.
    rewrite Hn. simpl. rewrite Hc. simpl.
    rewrite bool_decide_eq_false_2; [done | congruence].
Qed.

Lemma create_first_failure_witness :
  create one_piece any_color base0
    ([cat_X] ++ mkCat None "red" [of_Z 5] None :: [cat_Y]) ["A"; "B"; "C"]%string
  = Raise ValueError.
Proof.
  refine (proj1 (create_first_failure one_piece any_color base0 [cat_X] [cat_Y]
                   (mkCat None "red" [of_Z 5] None) ["A"; "B"; "C"]%string
                   _ _) _).
  - reflexivity.
  - reflexivity.
Defined.

(** ** Zero padding, continued *)

Lemma expand_data_cases n (d : list num) :
  expand_data n d = d ++ replicate (n - length d) (of_Z 0) ∧
  length (expand_data n d) = (length d `max` n)%nat.
Proof.
  unfold expand_data. case_bool_decide as Hlt.
  - split; [done |]. rewrite length_app, length_replicate. lia.
  - replace (n - length d)%nat with 0%nat by lia. simpl.
    rewrite app_nil_r. split; [done | lia].
Qed.

Lemma expand_dataset_long_enough (ds : Dataset) :
  Forall (λ cat, length (samples ds) ≤ length (data cat))%nat (cats ds) →
  expand_dataset ds = ds.
Proof.
  destruct ds as [b cs ss]. unfold expand_dataset, set_cats. simpl.
  intros Hlen. f_equal.
  induction Hlen as [|cat cs Hcat _ IH]; [done |].
  rewrite fmap_cons, IH. f_equal.
  destruct cat as [nm c d p]. unfold set_data, expand_data. simpl in *.
  rewrite bool_decide_eq_false_2 by lia. done.
Qed.

(** X6: the padding stage keeps the base dataset, the samples and the
    names, colours and percent series of the categories; each value sequence
    keeps its values and gets zeros appended, to the length
    max(old length, sample count), so a longer one is never cut; padding
    twice is the same as padding once. *)
Theorem expand_dataset_pads (ds : Dataset) :
  base (expand_dataset ds) = base ds ∧
  samples (expand_dataset ds) = samples ds ∧
  Forall2 (λ cat cat',
     name cat' = name cat ∧ color cat' = color cat ∧
     data_pct cat' = data_pct cat ∧
     data cat'
     = data cat ++ replicate (length (samples ds) - length (data cat)) (of_Z 0) ∧
     length (data cat') = (length (data cat) `max` length (samples ds))%nat)
    (cats ds) (cats (expand_dataset ds)) ∧
  expand_dataset (expand_dataset ds) = expand_dataset ds.
Proof.
  split; [done |]. split; [done |]. split.
  - unfold expand_dataset. simpl. apply Forall2_fmap_r, Forall_Forall2_diag.
    apply Forall_forall. intros cat _. simpl.
    do 3 (split; [done |]). apply expand_data_cases.
  - apply expand_dataset_long_enough. unfold expand_dataset. simpl.
    apply Forall_fmap, Forall_forall. intros cat _. simpl.
    destruct (expand_data_cases (length (samples ds)) (data cat)) as [_ Hl].
    rewrite Hl. lia.
Qed.

(** X7: on every dataset that [create] returns the padding stage changes
    nothing: there is never a short value sequence left to pad. *)
Theorem padding_after_create
    (split_long_string : string → list string)
    (rgb_string : string → result string)
    (dataset : BaseDataset) (cs : list Cat) (ss : list string) (ds : Dataset) :
  create split_long_string rgb_string dataset cs ss = Ok ds →
  expand_dataset ds = ds.
Proof.
  intros H. apply expand_dataset_same.
  by destruct (create_Ok_shape _ _ _ _ _ _ H).
Qed.

Lemma padding_after_create_witness :
  ∃ ds, create one_piece any_color base0 [cat_X; cat_Y] ["A"; "B"; "C"]%string
        = Ok ds ∧ expand_dataset ds = ds.
Proof.
  eexists. split; [reflexivity |].
  apply (padding_after_create one_piece any_color base0 [cat_X; cat_Y]
           ["A"; "B"; "C"]%string).
  reflexivity.
Defined.

(** ** Axis ranges, continued *)

Lemma mapM_same_error {A B} (f : A → result B) (l : list A) (e : exn) :
  (∀ x, x ∈ l → f x = Raise e ∨ ∃ y, f x = Ok y) →
  (∃ x, x ∈ l ∧ f x = Raise e) →
  mapM f l = Raise e.
Proof.
  induction l as [|x l IH]; intros Hall (x0 & Hin & Hx0); [set_solver |].
  simpl. destruct (Hall x) as [Hx|[y Hy]]; [set_solver | by rewrite Hx |].
  rewrite Hy. simpl. rewrite IH; [done | |].
  - intros z Hz. apply Hall. set_solver.
  - apply elem_of_cons in Hin as [->|Hin]; [congruence |]. eauto.
Qed.

Lemma column_cases (cs : list Cat) (i : nat) :
  (Forall (λ cat, (i < length (data cat))%nat) cs ∧
   column cat_data cs i = Ok (col_at (data <$> cs) i)) ∨
  (¬ Forall (λ cat, (i < length (data cat))%nat) cs ∧
   column cat_data cs i = Raise IndexError).
Proof.
  induction cs as [|cat cs IH]; [left; by split |].
  assert (column cat_data (cat :: cs) i
          = (v ← getitem (data cat) i;
             vs ← column cat_data cs i; Ok (v :: vs))) as -> by reflexivity.
  unfold getitem. destruct (data cat !! i) as [v|] eqn:Ev.
  - pose proof (lookup_lt_Some _ _ _ Ev) as Hlt.
    destruct IH as [[Hall ->]|[Hnot ->]].
    + left. split; [by constructor |].
      change (col_at (data <$> cat :: cs) i)
        with (nth i (data cat) (of_Z 0) :: col_at (data <$> cs) i).
      by rewrite (nth_lookup_Some _ _ _ _ Ev).
    + right. split; [| done]. by intros [_ ?]%Forall_cons.
  - right. split; [| done]. intros [Hlt _]%Forall_cons.
    apply lookup_ge_None_1 in Ev. lia.
Qed.

Lemma rows_IndexError (ds : Dataset) (g : list num → result num) (cat : Cat) :
  cat ∈ cats ds → (length (data cat) < length (samples ds))%nat →
  (∀ col, col ≠ [] → ∃ r, g col = Ok r) →
  mapM (λ i, col ← column cat_data (cats ds) i; g col) (sample_range ds)
  = Raise IndexError.
Proof.
  intros Hcat Hshort Hg. apply mapM_same_error.
  - intros i _. destruct (column_cases (cats ds) i) as [[_ ->]|[_ ->]];
      [right | by left].
    simpl. apply Hg. intros Hnil%fmap_nil_inv%fmap_nil_inv.
    rewrite Hnil in Hcat. by apply elem_of_nil in Hcat.
  - exists (length (data cat)). split; [apply elem_of_seq; lia |].
    destruct (column_cases (cats ds) (length (data cat))) as [[Hall _]|[_ ->]];
      [| done].
    rewrite Forall_forall in Hall. specialize (Hall cat Hcat). lia.
Qed.

(** X8: the range stage raises [ValueError] for a dataset without samples,
    and in grouped mode also for one without categories; in stacked mode a
    dataset with samples and no category gets the range [0, 0]. *)
Theorem set_ranges_empty (ds : Dataset) :
  (samples ds = [] → ∀ bm, set_ranges bm ds = Raise ValueError) ∧
  (samples ds ≠ [] → cats ds = [] →
   set_ranges group ds = Raise ValueError ∧
   ∃ ds', set_ranges relative ds = Ok ds' ∧
          maxallowed (base ds') = Some (of_Z 0) ∧
          minallowed (base ds') = Some (of_Z 0)).
Proof.
  split.
  - intros Hs bm. unfold set_ranges, xmax_cnt, max_of_max, max_of_positive_sums,
      sample_range. rewrite Hs. by destruct bm.
  - intros Hs Hc. split.
    + unfold set_ranges, xmax_cnt, max_of_max, sample_range. rewrite Hc.
      destruct (samples ds); [done |]. reflexivity.
    + assert (series cat_data (cats ds) [] (length (samples ds))) as Hser.
      { rewrite Hc. constructor. }
      destruct (max_of_positive_sums_spec cat_data ds [] Hser Hs)
        as (mx & Hmx & [Hin _]).
      destruct (min_of_negative_sums_spec cat_data ds [] Hser Hs)
        as (mn & Hmn & [Hin' _]).
      apply list_elem_of_fmap in Hin as (i & -> & _).
      apply list_elem_of_fmap in Hin' as (j & -> & _).
      destruct (set_ranges_Ok relative ds _ _ Hmx Hmn) as (ds' & ? & ? & ? & _).
      by exists ds'.
Qed.

Lemma set_ranges_empty_witness :
  set_ranges group (mkDataset base0 [cat_X] []) = Raise ValueError.
Proof.
  exact (proj1 (set_ranges_empty (mkDataset base0 [cat_X] [])) eq_refl group).
Defined.

(** X9: in both barmodes the range stage raises [IndexError] as soon as one
    category has fewer values than there are samples, so the padding stage,
    which comes after it, is never reached with such a category. *)
Theorem set_ranges_short_data (bm : Barmode) (ds : Dataset) (cat : Cat) :
  cat ∈ cats ds → (length (data cat) < length (samples ds))%nat →
  set_ranges bm ds = Raise IndexError.
Proof.
  intros Hcat Hshort. unfold set_ranges, xmax_cnt.
  destruct bm.
  - unfold max_of_positive_sums.
    rewrite (rows_IndexError ds (λ col, Ok (py_sum (only_positive <$> col))) cat);
      eauto.
  - unfold max_of_max.
    rewrite (rows_IndexError ds py_max cat); try done.
    intros [|x col] Hne; [done |]. by eexists.
Qed.

Lemma set_ranges_short_data_witness :
  set_ranges relative
    (mkDataset base0 [mkCat (Some "X") "red" [of_Z 5] None] ["A"; "B"; "C"]%string)
  = Raise IndexError.
Proof.
  apply (set_ranges_short_data relative _ (mkCat (Some "X") "red" [of_Z 5] None)).
  - simpl. apply list_elem_of_singleton. reflexivity.
  - simpl. lia.
Defined.

Lemma positive_sum_nonneg l : num_le (of_Z 0) (positive_sum l).
Proof.
  unfold positive_sum. induction l as [|v l IH]; [apply Qcle_refl |].
  rewrite filter_cons. case_decide as Hv; [| done].
  cbn [total foldr]. fold (total (filter (λ v, py_lt (of_Z 0) v = true) l)).
  destruct v as [a|]; [| done]. simpl in Hv. apply bool_decide_eq_true in Hv.
  destruct (total _) as [b|]; [| done]. simpl in *.
  change (Q2Qc (inject_Z 0)) with 0%Qc in *.
  apply Qcplus_nonneg_nonneg; [by apply Qclt_le_weak | done].
Qed.

Lemma negative_sum_nonpos l : num_le (negative_sum l) (of_Z 0).
Proof.
  unfold negative_sum. induction l as [|v l IH]; [apply Qcle_refl |].
  rewrite filter_cons. case_decide as Hv; [| done].
  cbn [total foldr]. fold (total (filter (λ v, py_lt v (of_Z 0) = true) l)).
  destruct v as [a|]; [| done]. simpl in Hv. apply bool_decide_eq_true in Hv.
  destruct (total _) as [b|]; [| done]. simpl in *.
  change (Q2Qc (inject_Z 0)) with 0%Qc in *.
  apply Qcplus_nonpos_nonpos; [by apply Qclt_le_weak | done].
Qed.

(** X10: for a dataset with at least one sample and one value per sample,
    the stacked range always contains zero (minimum ≤ 0 ≤ maximum, whatever
    the values, NaN included); the grouped range, given at least one category
    and no NaN, has minimum ≤ maximum. *)
Theorem allowed_range_order (ds : Dataset) :
  samples ds ≠ [] →
  Forall (λ cat, length (data cat) = length (samples ds)) (cats ds) →
  (∃ ds' mx mn,
     set_ranges relative ds = Ok ds' ∧
     maxallowed (base ds') = Some mx ∧ minallowed (base ds') = Some mn ∧
     num_le mn (of_Z 0) ∧ num_le (of_Z 0) mx) ∧
  (cats ds ≠ [] → Forall (λ cat, Forall finite (data cat)) (cats ds) →
   ∃ ds' mx mn,
     set_ranges group ds = Ok ds' ∧
     maxallowed (base ds') = Some mx ∧ minallowed (base ds') = Some mn ∧
     num_le mn mx).
Proof.
  intros Hsamples Hlen. pose proof (series_data ds Hlen) as Hser. split.
  - destruct (max_of_positive_sums_spec cat_data ds _ Hser Hsamples)
      as (mx & Hmx & [Hin _]).
    destruct (min_of_negative_sums_spec cat_data ds _ Hser Hsamples)
      as (mn & Hmn & [Hin' _]).
    destruct (set_ranges_Ok relative ds mx mn Hmx Hmn) as (ds' & ? & ? & ? & _).
    exists ds', mx, mn. do 3 (split; [done |]).
    apply list_elem_of_fmap in Hin as (i & -> & _).
    apply list_elem_of_fmap in Hin' as (j & -> & _).
    split; [apply negative_sum_nonpos | apply positive_sum_nonneg].
  - intros Hcats Hfin.
    assert (data_table ds ≠ []) as Htbl.
    { unfold data_table. by intros ?%fmap_nil_inv. }
    assert (Forall (Forall finite) (data_table ds)) as Hfin'.
    { unfold data_table. by apply Forall_fmap. }
    destruct (max_of_max_spec cat_data ds _ Hser Hsamples Htbl Hfin')
      as (mx & Hmx & [Hin Hub]).
    destruct (min_of_min_spec cat_data ds _ Hser Hsamples Htbl Hfin')
      as (mn & Hmn & [Hin' Hlb]).
    destruct (set_ranges_Ok group ds mx mn Hmx Hmn) as (ds' & ? & ? & ? & _).
    exists ds', mx, mn. do 3 (split; [done |]). by apply Hlb.
Qed.

Lemma allowed_range_order_witness :
  ∃ ds' mx mn,
    set_ranges relative ds_XY = Ok ds' ∧
    maxallowed (base ds') = Some mx ∧ minallowed (base ds') = Some mn ∧
    num_le mn (of_Z 0) ∧ num_le (of_Z 0) mx.
Proof.
  refine (proj1 (allowed_range_order ds_XY _ _)).
  - discriminate.
  - repeat constructor.
Defined.

(** ** [create_figure] *)

(** What [create_figure] needs of a category: a name, and in percent mode a
    stored percent series. *)
Lemma create_trace_cases (ds : Dataset) (is_pct : bool) (cat : Cat) :
  (is_Some (name cat) ∧ (is_pct = true → is_Some (data_pct cat)) ∧
   ∃ t, create_trace ds is_pct cat = Ok t ∧
        trace_y t = samples ds ∧ name cat = Some (trace_name t) ∧
        marker_color t = ("rgb(" ++ color cat ++ ")")%string ∧
        (if is_pct then data_pct cat = Some (trace_x t)
         else trace_x t = data cat)) ∨
  (¬ (is_Some (name cat) ∧ (is_pct = true → is_Some (data_pct cat))) ∧
   create_trace ds is_pct cat = Raise KeyError).
Proof.
  unfold create_trace, cat_data_pct, cat_data, cat_name.
  destruct is_pct, (data_pct cat) as [p|], (name cat) as [nm|]; simpl;
    try (left; split; [by eexists |]; split; [by eauto |];
         eexists; by repeat split);
    right; (split; [| done]); intros [[? [=]] H]
    || (intros [_ H]; by destruct (H eq_refl)).
Qed.

(** ** [save_data_file] *)

Lemma table_get_set_val tbl s nm v s' nm' :
  table_get (set_val s nm v tbl) s' nm'
  = if decide (s' = s ∧ nm' = nm) then Some v else table_get tbl s' nm'.
Proof.
  unfold table_get, set_val.
  destruct (decide (s' = s)) as [->|Hs].
  - rewrite lookup_insert_eq. simpl.
    destruct (decide (nm' = nm)) as [->|Hn].
    + rewrite lookup_insert_eq. by rewrite decide_True.
    + rewrite lookup_insert_ne by done. rewrite decide_False by naive_solver.
      by destruct (tbl !! s).
  - rewrite lookup_insert_ne by done. by rewrite decide_False by naive_solver.
Qed.

Lemma table_get_empty s nm : table_get ∅ s nm = None.
Proof. unfold table_get. by rewrite lookup_empty. Qed.

Section SaveCat.
Variable ss : list string.
Variable cat : Cat.
Variable nm : string.
Hypothesis Hname : name cat = Some nm.

Lemma save_cat_from_cons idx v vals tbl s :
  ss !! idx = Some s →
  save_cat_from ss cat idx (v :: vals) tbl
  = save_cat_from ss cat (S idx) vals (set_val s nm v tbl).
Proof using Hname.
  intros Hs. cbn [save_cat_from]. unfold getitem, cat_name.
  by rewrite Hs, Hname.
Qed.

Lemma save_cat_from_long idx vals tbl :
  (idx ≤ length ss)%nat → (length ss < idx + length vals)%nat →
  save_cat_from ss cat idx vals tbl = Raise IndexError.
Proof using Hname.
  revert idx tbl. induction vals as [|v vals IH]; intros idx tbl Hidx Hlen;
    [simpl in Hlen; lia |].
  destruct (ss !! idx) as [s|] eqn:Es.
  - rewrite (save_cat_from_cons _ _ _ _ s Es).
    apply lookup_lt_Some in Es. apply IH; simpl in Hlen; lia.
  - cbn [save_cat_from]. unfold getitem. by rewrite Es.
Qed.

Lemma save_cat_from_spec idx vals tbl :
  NoDup ss → (idx + length vals ≤ length ss)%nat →
  ∃ tbl', save_cat_from ss cat idx vals tbl = Ok tbl' ∧
    (∀ j v s, vals !! j = Some v → ss !! (idx + j)%nat = Some s →
              table_get tbl' s nm = Some v) ∧
    (∀ s nm', nm' ≠ nm ∨ (∀ j, (j < length vals)%nat → ss !! (idx + j)%nat ≠ Some s) →
              table_get tbl' s nm' = table_get tbl s nm').
Proof using Hname.
  intros Hnd. revert idx tbl.
  induction vals as [|v vals IH]; intros idx tbl Hlen.
  - exists tbl. split; [done |]. split; [by intros j v s [=] | done].
  - simpl in Hlen.
    destruct (lookup_lt_is_Some_2 ss idx) as [s0 Hs0]; [lia |].
    rewrite (save_cat_from_cons _ _ _ _ s0 Hs0).
    destruct (IH (S idx) (set_val s0 nm v tbl)) as (tbl' & Htbl' & Hin & Hout);
      [lia |].
    exists tbl'. split; [done |]. split.
    + intros [|j] w s Hw Hs.
      * injection Hw as <-. rewrite Nat.add_0_r, Hs0 in Hs. injection Hs as <-.
        rewrite Hout, table_get_set_val, decide_True; [done.. |].
        right. intros j _ Hj.
        pose proof (NoDup_lookup _ _ _ _ Hnd Hs0 Hj). lia.
      * apply (Hin j w s Hw).
        by replace (S idx + j)%nat with (idx + S j)%nat by lia.
    + intros s nm' Hcond. rewrite Hout, table_get_set_val.
      * rewrite decide_False; [done |]. intros [-> ->].
        destruct Hcond as [|Hcond]; [done |].
        apply (Hcond 0%nat); [simpl; lia | by rewrite Nat.add_0_r].
      * destruct Hcond as [|Hcond]; [by left | right].
        intros j Hj. replace (S idx + j)%nat with (idx + S j)%nat by lia.
        apply Hcond. simpl. lia.
Qed.
End SaveCat.

Lemma save_cats_spec (ss : list string) (cs : list Cat)
    (tbl : gmap string (gmap string num)) :
  NoDup ss → NoDup (name <$> cs) →
  Forall (λ cat, is_Some (name cat) ∧ length (data cat) = length ss) cs →
  ∃ tbl', foldM (λ tbl cat, save_cat_from ss cat 0 (data cat) tbl) tbl cs
          = Ok tbl' ∧
    (∀ cat nm i s, cat ∈ cs → name cat = Some nm → ss !! i = Some s →
       table_get tbl' s nm = data cat !! i) ∧
    (∀ s nm, Some nm ∉ name <$> cs ∨ s ∉ ss →
       table_get tbl' s nm = table_get tbl s nm).
Proof.
  intros Hss. revert tbl.
  induction cs as [|c0 cs IH]; intros tbl Hnames Hall.
  - exists tbl. split; [done |]. split; [| done].
    intros cat nm i s Hcat. by apply elem_of_nil in Hcat.
  - rewrite fmap_cons in Hnames. apply NoDup_cons in Hnames as [Hc0 Hnames].
    apply Forall_cons in Hall as [[[nm0 Hnm0] Hlen0] Hall].
    destruct (save_cat_from_spec ss c0 nm0 Hnm0 0 (data c0) tbl Hss)
      as (tbl1 & Htbl1 & Hin1 & Hout1); [simpl; lia |].
    destruct (IH tbl1 Hnames Hall) as (tbl' & Htbl' & Hin & Hout).
    exists tbl'. split; [simpl; rewrite Htbl1; exact Htbl' |]. split.
    + intros cat nm i s [->|Hcat]%elem_of_cons Hnm Hs.
      * rewrite Hnm0 in Hnm. injection Hnm as <-.
        rewrite Hout by (left; by rewrite <- Hnm0).
        destruct (lookup_lt_is_Some_2 (data c0) i) as [v Hv].
        { rewrite Hlen0. by eapply lookup_lt_Some. }
        rewrite Hv. by apply (Hin1 i v s).
      * by apply (Hin cat nm i s).
    + intros s nm Hcond.
      rewrite Hout.
      * apply Hout1. destruct Hcond as [Hn|Hs].
        -- left. intros ->. apply Hn. rewrite fmap_cons, Hnm0. set_solver.
        -- right. intros j _ Hj. apply Hs. by eapply list_elem_of_lookup_2.
      * destruct Hcond as [Hn|Hs]; [left | by right].
        intros Hn'. apply Hn. rewrite fmap_cons. set_solver.
Qed.

(** X15: for a dataset with distinct sample names, distinctly named
    categories and one value per sample, the table that [save_data_file]
    hands to [write_data_file] holds, under each sample and category name,
    the value of that category at that sample, and nothing under any other
    sample or category name. *)
Theorem save_data_file_table (ds : Dataset) :
  NoDup (samples ds) → NoDup (name <$> cats ds) →
  Forall (λ cat, is_Some (name cat) ∧ length (data cat) = length (samples ds))
    (cats ds) →
  ∃ tbl, val_by_cat_by_sample ds = Ok tbl ∧
    (∀ cat nm i s, cat ∈ cats ds → name cat = Some nm →
       samples ds !! i = Some s → table_get tbl s nm = data cat !! i) ∧
    (∀ s nm, Some nm ∉ name <$> cats ds ∨ s ∉ samples ds →
       table_get tbl s nm = None).
Proof.
  intros Hss Hnames Hall.
  destruct (save_cats_spec (samples ds) (cats ds) ∅ Hss Hnames Hall)
    as (tbl & Htbl & Hin & Hout).
  exists tbl. split; [done |]. split; [done |].
  intros s nm Hcond. by rewrite Hout, table_get_empty.
Qed.

Lemma save_data_file_table_witness :
  ∃ tbl, val_by_cat_by_sample ds_XY = Ok tbl ∧
         table_get tbl "B" "X" = Some (of_Z 2).
Proof.
  assert (NoDup (samples ds_XY)) as H1 by by_evaluation.
  assert (NoDup (name <$> cats ds_XY)) as H2 by by_evaluation.
  assert (Forall (λ cat, is_Some (name cat) ∧
                         length (data cat) = length (samples ds_XY))
            (cats ds_XY)) as H3.
  { repeat constructor; by eexists. }
  destruct (save_data_file_table ds_XY H1 H2 H3) as (tbl & Htbl & Hin & _).
  exists tbl. split; [exact Htbl |].
  apply (Hin cat_X "X"%string 1%nat "B"%string); [| reflexivity..].
  apply elem_of_cons. by left.
Defined.

Lemma foldM_all_or_error {A B} (f : B → A → result B) (P : A → Prop)
    `{!∀ x, Decision (P x)} (e : exn) (l : list A) (b : B) :
  (∀ b x, x ∈ l → P x → ∃ b', f b x = Ok b') →
  (∀ b x, x ∈ l → ¬ P x → f b x = Raise e) →
  (Forall P l → ∃ b', foldM f b l = Ok b') ∧
  (¬ Forall P l → foldM f b l = Raise e).
Proof.
  revert b. induction l as [|x l IH]; intros b Hok Hbad.
  - split; [by eexists | intros []; constructor].
  - destruct (decide (P x)) as [Hx|Hx].
    + destruct (Hok b x) as [b' Hb']; [set_solver | done |].
      destruct (IH b') as [IHok IHbad].
      { intros b0 y Hy. apply Hok. set_solver. }
      { intros b0 y Hy. apply Hbad. set_solver. }
      split.
      * intros [_ Hl]%Forall_cons. simpl. rewrite Hb'. by apply IHok.
      * intros Hnot. simpl. rewrite Hb'. apply IHbad.
        intros Hl. apply Hnot. by constructor.
    + split.
      * by intros [? _]%Forall_cons.
      * intros _. simpl. rewrite (Hbad b x); [done | set_solver | done].
Qed.

Lemma save_cat_from_Ok ss cat idx vals tbl :
  is_Some (name cat) → (idx + length vals ≤ length ss)%nat →
  ∃ tbl', save_cat_from ss cat idx vals tbl = Ok tbl'.
Proof.
  intros [nm Hnm]. revert idx tbl.
  induction vals as [|v vals IH]; intros idx tbl Hlen; [by eexists |].
  simpl in Hlen. destruct (lookup_lt_is_Some_2 ss idx) as [s Hs]; [lia |].
  rewrite (save_cat_from_cons ss cat nm Hnm _ _ _ _ s Hs). apply IH. lia.
Qed.

(** X16: for a dataset whose categories all have a name,
    [save_data_file] builds its table exactly when no category has more
    values than there are samples (fewer are accepted here), and raises
    [IndexError] otherwise. *)
Theorem save_data_file_long_data (ds : Dataset) :
  Forall (λ cat, is_Some (name cat)) (cats ds) →
  ((∃ tbl, val_by_cat_by_sample ds = Ok tbl) ↔
     Forall (λ cat, length (data cat) ≤ length (samples ds))%nat (cats ds)) ∧
  (¬ Forall (λ cat, length (data cat) ≤ length (samples ds))%nat (cats ds) →
   val_by_cat_by_sample ds = Raise IndexError).
Proof.
  intros Hnamed. unfold val_by_cat_by_sample.
  rewrite Forall_forall in Hnamed.
  destruct (foldM_all_or_error
              (λ tbl cat, save_cat_from (samples ds) cat 0 (data cat) tbl)
              (λ cat, length (data cat) ≤ length (samples ds))%nat
              IndexError (cats ds) ∅) as [Hok Hbad].
  { intros tbl cat Hcat Hl. apply save_cat_from_Ok; [by apply Hnamed | done]. }
  { intros tbl cat Hcat Hnot. destruct (Hnamed cat Hcat) as [nm Hnm].
    apply (save_cat_from_long (samples ds) cat nm Hnm); simpl; lia. }
  split; [| done]. split; [| done].
  intros [tbl Htbl].
  destruct (decide (Forall (λ cat, length (data cat) ≤ length (samples ds))%nat
                      (cats ds))) as [|Hnot]; [done |].
  rewrite (Hbad Hnot) in Htbl. discriminate.
Qed.

Lemma save_data_file_long_data_witness :
  val_by_cat_by_sample (mkDataset base0 [cat_X] ["A"; "B"]%string)
  = Raise IndexError.
Proof.
  refine (proj2 (save_data_file_long_data
                   (mkDataset base0 [cat_X] ["A"; "B"]%string) _) _).
  - repeat constructor. by exists "X"%string.
  - intros [H _]%Forall_cons. simpl in H. lia.
Defined.

(** ** Log tab, continued *)

Lemma list_sort_sorted {A} (key : A → num) (l : list A) :
  StronglySorted (le_by key) l → list_sort key l = l.
Proof.
  induction 1 as [|x l Hl IH Hx]; [done |].
  cbn [list_sort]. rewrite IH. destruct l as [|y l]; [done |].
  cbn [sort_insert]. apply Forall_cons in Hx as [Hxy _].
  unfold le_by in Hxy. destruct (key x) as [a|], (key y) as [b|]; try done.
  simpl in *. rewrite bool_decide_eq_false_2; [done |]. by apply Qcle_not_lt.
Qed.

(** X17: the log tab stage leaves in place the categories of every dataset
    in which they already stand in ascending order of [sum(data)], and, as
    long as no such sum is NaN, running the sort a second time changes
    nothing. *)
Theorem log_tab_sorted_unchanged (dss : list Dataset) (lay : Layout) :
  (Forall (λ ds, StronglySorted key_le (cats ds)) dss →
   (log_tab dss lay).1 = dss) ∧
  (Forall (λ ds, Forall (λ cat, finite (sort_key cat)) (cats ds)) dss →
   (log_tab (log_tab dss lay).1 lay).1 = (log_tab dss lay).1).
Proof.
  assert (∀ dss, Forall (λ ds, StronglySorted key_le (cats ds)) dss →
                 (log_tab dss lay).1 = dss) as Hsame.
  { intros dss0 Hs. unfold log_tab. rewrite foldl_log_tab_step. simpl.
    induction Hs as [|ds dss1 Hds _ IH]; [done |].
    rewrite fmap_cons, IH. f_equal.
    rewrite (list_sort_sorted sort_key (cats ds) Hds). by destruct ds. }
  split; [apply Hsame |].
  intros Hfin. apply Hsame.
  unfold log_tab. rewrite foldl_log_tab_step. simpl.
  apply Forall_fmap. eapply Forall_impl; [exact Hfin |].
  intros ds Hds. simpl. by apply list_sort_StronglySorted.
Qed.

Lemma log_tab_sorted_unchanged_witness :
  (log_tab [ds_XY] (mkLayout 300 relative "normal")).1 = [ds_XY].
Proof.
  refine (proj1 (log_tab_sorted_unchanged [ds_XY]
                   (mkLayout 300 relative "normal")) _).
  apply Forall_cons; split; [| constructor]. simpl.
  apply SSorted_cons; [apply SSorted_cons; constructor |].
  apply Forall_cons; split; [| constructor].
  unfold key_le, le_by. vm_compute. discriminate.
Defined.

(** ** The constructor as a whole *)

Lemma Forall2_transfer {A B} (R : A → B → Prop) (P : A → Prop) (Q : B → Prop)
    (l : list A) (k : list B) :
  Forall2 R l k → Forall P l → (∀ x y, R x y → P x → Q y) → Forall Q k.
Proof.
  intros HR HP Himp. induction HR as [|x y l k Hxy _ IH]; [constructor |].
  apply Forall_cons in HP as [Hx HP]. constructor; eauto.
Qed.

Lemma Forall2_fmap_eq {A B C} (f : A → C) (g : B → C) (l : list A) (k : list B) :
  Forall2 (λ x y, g y = f x) l k → g <$> k = f <$> l.
Proof.
  induction 1 as [|x y l k Hxy _ IH]; [done |].
  by rewrite !fmap_cons, Hxy, IH.
Qed.

Lemma set_ranges_Ok_inv bm ds ds' :
  set_ranges bm ds = Ok ds' →
  cats ds' = cats ds ∧ samples ds' = samples ds ∧ samples ds ≠ [] ∧
  (bm = group → cats ds ≠ []).
Proof.
  intros H.
  assert (samples ds ≠ []) as Hs.
  { intros Hs. unfold set_ranges, xmax_cnt, max_of_max, max_of_positive_sums,
      sample_range in H. rewrite Hs in H. by destruct bm. }
  assert (bm = group → cats ds ≠ []) as Hc.
  { intros -> Hc. unfold set_ranges, xmax_cnt, max_of_max, sample_range in H.
    rewrite Hc in H. by destruct (samples ds). }
  unfold set_ranges in H.
  destruct (xmax_cnt bm ds); [| discriminate]. simpl in H.
  destruct (xmin_cnt bm ds); [| discriminate]. by injection H as <-.
Qed.

Lemma pct_values_from_length idx vals sums ps :
  pct_values_from idx vals sums = Ok ps → length ps = length vals.
Proof.
  revert idx ps. induction vals as [|v vals IH]; intros idx ps H.
  - by injection H as <-.
  - cbn [pct_values_from] in H.
    destruct (getitem sums idx); [| discriminate]. simpl in H.
    rewrite pct_value_percent_of in H. simpl in H.
    destruct (pct_values_from (S idx) vals sums) as [ps'|] eqn:E;
      [| discriminate].
    injection H as <-. simpl. f_equal. by eapply IH.
Qed.

Lemma percentages_Ok_inv cs cs' :
  percentages cs = Ok cs' →
  cs ≠ [] ∧
  Forall2 (λ c c', name c' = name c ∧ color c' = color c ∧ data c' = data c ∧
                   ∃ p, data_pct c' = Some p ∧ length p = length (data c))
    cs cs'.
Proof.
  unfold percentages. intros H. split.
  { intros ->. discriminate. }
  destruct (count_totals cs) as [sums|]; [| discriminate]. simpl in H.
  apply mapM_Ok_inv in H. eapply Forall2_impl; [exact H |].
  intros c c' Hc. unfold save_pct in Hc.
  destruct (pct_values_from 0 (data c) sums) as [ps|] eqn:E; [| discriminate].
  injection Hc as <-. simpl. do 3 (split; [done |]).
  exists ps. split; [done |]. by eapply pct_values_from_length.
Qed.

Lemma calc_pct_Ok_inv bm ds ds' :
  calc_pct bm ds = Ok ds' →
  samples ds' = samples ds ∧ percentages (cats ds) = Ok (cats ds').
Proof.
  unfold calc_pct. intros H.
  destruct (percentages (cats ds)) as [cs'|]; [| discriminate]. simpl in H.
  destruct (pct_min bm _); [| discriminate]. by injection H as <-.
Qed.

Lemma calc_pct_keeps_shape bm ds ds' :
  calc_pct bm ds = Ok ds' → well_shaped ds →
  well_shaped ds' ∧ has_percentages ds'.
Proof.
  intros H [Hs Hshape].
  destruct (calc_pct_Ok_inv _ _ _ H) as [Hsam Hp].
  destruct (percentages_Ok_inv _ _ Hp) as [Hne HF].
  unfold well_shaped, has_percentages. rewrite Hsam.
  split; [split; [done |] | split].
  - eapply Forall2_transfer; [exact HF | exact Hshape |].
    intros c c' (Hn & _ & Hd & _) [Hnm Hl]. by rewrite Hn, Hd.
  - intros Hnil. rewrite Hnil in HF. by apply Forall2_nil_inv_r in HF.
  - eapply Forall2_transfer; [exact HF | exact Hshape |].
    intros c c' (_ & _ & _ & p & Hp' & Hl') [_ Hl]. exists p. split; [done | lia].
Qed.

Lemma sort_keeps_shape ds :
  well_shaped ds → well_shaped (set_cats (list_sort sort_key (cats ds)) ds).
Proof.
  intros [Hs Hshape]. split; [done |]. simpl.
  by rewrite list_sort_Permutation.
Qed.

Lemma sort_keeps_percentages ds :
  has_percentages ds → has_percentages (set_cats (list_sort sort_key (cats ds)) ds).
Proof.
  intros [Hne Hp]. split; simpl.
  - intros Hnil. apply Hne. apply Permutation_nil_r.
    by rewrite <- Hnil, list_sort_Permutation.
  - by rewrite list_sort_Permutation.
Qed.

Section InitInversion.
Variable split_long_string : string → list string.
Variable rgb_string : string → result string.

Lemma create_Ok_named dataset cs ss ds :
  create split_long_string rgb_string dataset cs ss = Ok ds →
  samples ds = ss ∧
  Forall (λ cat, is_Some (name cat) ∧ length (data cat) = length (samples ds))
    (cats ds).
Proof.
  unfold create. intros H.
  destruct (mapM (create_cat split_long_string rgb_string ss) cs)
    as [cs'|] eqn:E; [| discriminate].
  injection H as <-. split; [done |]. simpl.
  apply mapM_Ok_inv in E. apply Forall_forall. intros cat' Hcat'.
  apply list_elem_of_lookup in Hcat' as [i Hi].
  destruct (Forall2_lookup_r _ _ _ _ _ E Hi) as (cat & _ & Hc).
  destruct (create_cat_Ok_inv _ _ _ _ _ Hc) as (nm & _ & Hn & _ & Hd & _ & Hl).
  split; [by eexists | by rewrite Hd].
Qed.

Lemma BarPlot_init_Ok_inv (self : Plot) (pconfig : gmap string pyval)
    (cats_lists : list (list Cat)) (samples_lists : list (list string))
    (n : Z) (p : BarPlot) :
  BarPlot_init split_long_string rgb_string self pconfig cats_lists
    samples_lists n = Ok p →
  length cats_lists = length samples_lists ∧
  datasets p ≠ [] ∧
  (∃ max_n_cats : nat,
     layout_height (layout p)
     = height (barmode pconfig) n (Z.of_nat max_n_cats) ∧
     (∃ ds, ds ∈ datasets p ∧ length (cats ds) = max_n_cats) ∧
     ∀ ds, ds ∈ datasets p → (length (cats ds) ≤ max_n_cats)%nat) ∧
  layout_barmode (layout p) = barmode pconfig ∧
  legend_traceorder (layout p)
  = (if decide (barmode pconfig = group ∨ add_log_tab self = true)
     then "reversed" else "normal")%string ∧
  samples <$> datasets p
  = (λ t, t.2) <$> zip3 (plot_datasets self) cats_lists samples_lists ∧
  Forall well_shaped (datasets p) ∧
  (barmode pconfig = group → Forall (λ ds, cats ds ≠ []) (datasets p)) ∧
  (add_pct_tab self = true → Forall has_percentages (datasets p)).
Proof.
  unfold BarPlot_init. intros H.
  case_bool_decide as Hcount; [| discriminate]. simpl in H.
  split; [done |].
  destruct (mapM _ (zip3 _ _ _)) as [dss0|] eqn:E0; [| discriminate].
  simpl in H.
  destruct (py_max_by Z.gtb _) as [mc|] eqn:Emc; [| discriminate].
  simpl in H.
  destruct (mapM (set_ranges (barmode pconfig)) dss0) as [dss1|] eqn:E1;
    [| discriminate].
  simpl in H.
  apply mapM_Ok_inv in E0, E1.
  (* after [create] *)
  assert (Forall (λ ds, Forall (λ cat, is_Some (name cat) ∧
                                 length (data cat) = length (samples ds))
                          (cats ds)) dss0) as Hshape0.
  { apply Forall_forall. intros ds Hds.
    apply list_elem_of_lookup in Hds as [i Hi].
    destruct (Forall2_lookup_r _ _ _ _ _ E0 Hi) as ([[d cs] ss] & _ & Hc).
    by destruct (create_Ok_named _ _ _ _ Hc). }
  assert (samples <$> dss0
          = (λ t, t.2) <$> zip3 (plot_datasets self) cats_lists samples_lists)
    as Hsam0.
  { apply Forall2_fmap_eq. eapply Forall2_impl; [exact E0 |].
    intros [[d cs] ss] ds Hc. simpl in *.
    by destruct (create_Ok_named _ _ _ _ Hc). }
  assert (dss0 ≠ []) as Hne0.
  { intros ->. discriminate. }
  (* after the ranges *)
  assert (Forall well_shaped dss1) as Hshape1.
  { eapply Forall2_transfer; [exact E1 | exact Hshape0 |].
    intros ds ds' Hr Hsh.
    destruct (set_ranges_Ok_inv _ _ _ Hr) as (Hc & Hs & Hsne & _).
    split; rewrite ?Hc, Hs; done. }
  assert (cats <$> dss1 = cats <$> dss0) as Hcats1.
  { apply Forall2_fmap_eq. eapply Forall2_impl; [exact E1 |].
    intros ds ds' Hr. by destruct (set_ranges_Ok_inv _ _ _ Hr) as (? & _). }
  assert (samples <$> dss1 = samples <$> dss0) as Hsam1.
  { apply Forall2_fmap_eq. eapply Forall2_impl; [exact E1 |].
    intros ds ds' Hr. by destruct (set_ranges_Ok_inv _ _ _ Hr) as (_ & ? & _). }
  assert (barmode pconfig = group → Forall (λ ds, cats ds ≠ []) dss1) as Hgrp1.
  { intros Hg. eapply Forall2_transfer; [exact E1 | exact Hshape0 |].
    intros ds ds' Hr _.
    destruct (set_ranges_Ok_inv _ _ _ Hr) as (Hc & _ & _ & Hne).
    rewrite Hc. by apply Hne. }
  (* the padding changes nothing *)
  assert (expand_dataset <$> dss1 = dss1) as Hexp.
  { clear -Hshape1. induction Hshape1 as [|ds dss [_ Hds] _ IH]; [done |].
    rewrite fmap_cons, IH. f_equal. apply expand_dataset_same.
    eapply Forall_impl; [exact Hds |]. by intros cat [_ ?]. }
  rewrite Hexp in H.
  (* after the percentages *)
  destruct (if add_pct_tab self then mapM (calc_pct (barmode pconfig)) dss1
            else Ok dss1) as [dss3|] eqn:E3; [| discriminate].
  simpl in H.
  assert (Forall well_shaped dss3 ∧
          (add_pct_tab self = true → Forall has_percentages dss3) ∧
          samples <$> dss3 = samples <$> dss1 ∧
          length <$> (cats <$> dss3) = length <$> (cats <$> dss1) ∧
          (barmode pconfig = group → Forall (λ ds, cats ds ≠ []) dss3))
    as (Hshape3 & Hpct3 & Hsam3 & Hlen3 & Hgrp3).
  { destruct (add_pct_tab self).
    - apply mapM_Ok_inv in E3. split; [| split; [| split; [| split]]].
      + eapply Forall2_transfer; [exact E3 | exact Hshape1 |].
        intros ds ds' Hc Hsh. by destruct (calc_pct_keeps_shape _ _ _ Hc Hsh).
      + intros _. eapply Forall2_transfer; [exact E3 | exact Hshape1 |].
        intros ds ds' Hc Hsh. by destruct (calc_pct_keeps_shape _ _ _ Hc Hsh).
      + apply Forall2_fmap_eq. eapply Forall2_impl; [exact E3 |].
        intros ds ds' Hc. by destruct (calc_pct_Ok_inv _ _ _ Hc).
      + rewrite <- !list_fmap_compose. apply Forall2_fmap_eq.
        eapply Forall2_impl; [exact E3 |]. intros ds ds' Hc. simpl.
        destruct (calc_pct_Ok_inv _ _ _ Hc) as [_ Hp].
        destruct (percentages_Ok_inv _ _ Hp) as [_ HF].
        symmetry. by eapply Forall2_length.
      + intros Hg. eapply Forall2_transfer; [exact E3 | exact (Hgrp1 Hg) |].
        intros ds ds' Hc Hne Hnil.
        destruct (calc_pct_Ok_inv _ _ _ Hc) as [_ Hp].
        destruct (percentages_Ok_inv _ _ Hp) as [_ HF].
        rewrite Hnil in HF. by apply Forall2_nil_inv_r in HF.
    - injection E3 as <-. by repeat split. }
  (* after the log tab *)
  set (bm := barmode pconfig) in *.
  set (lay := mkLayout (height bm n mc) bm
                (if bool_decide (bm ≠ group) then "normal" else "reversed")) in *.
  assert (∃ max_n_cats : nat, mc = Z.of_nat max_n_cats ∧
            (∃ l, l ∈ length <$> (cats <$> dss0) ∧ l = max_n_cats) ∧
            ∀ l, l ∈ length <$> (cats <$> dss0) → (l ≤ max_n_cats)%nat)
    as (max_n_cats & -> & Hmax_in & Hmax_ub).
  { destruct (py_max_Z_spec ((λ ds, Z.of_nat (length (cats ds))) <$> dss0))
      as (m & Hm & Hin & Hub); [by intros ?%fmap_nil_inv |].
    rewrite Hm in Emc. injection Emc as <-.
    apply list_elem_of_fmap in Hin as (ds0 & -> & Hds0).
    exists (length (cats ds0)). split; [done |]. split.
    - exists (length (cats ds0)). split; [| done].
      rewrite <- list_fmap_compose. apply list_elem_of_fmap. by exists ds0.
    - intros l Hl. rewrite <- list_fmap_compose in Hl.
      apply list_elem_of_fmap in Hl as (ds & -> & Hds). simpl.
      assert (Z.of_nat (length (cats ds)) ≤ Z.of_nat (length (cats ds0)));
        [| lia].
      apply Hub, list_elem_of_fmap. by exists ds. }
  rewrite <- Hcats1, <- Hlen3 in Hmax_in, Hmax_ub.
  assert (∃ ds, ds ∈ dss3 ∧ length (cats ds) = max_n_cats) as Hin3.
  { destruct Hmax_in as (l & Hl & <-).
    apply list_elem_of_fmap in Hl as (cs & -> & Hcs).
    apply list_elem_of_fmap in Hcs as (ds & -> & Hds). by exists ds. }
  assert (∀ ds, ds ∈ dss3 → (length (cats ds) ≤ max_n_cats)%nat) as Hub3.
  { intros ds Hds. apply Hmax_ub.
    apply list_elem_of_fmap. exists (cats ds). split; [done |].
    apply list_elem_of_fmap. by exists ds. }
  clear Hmax_in Hmax_ub.
  assert (dss3 ≠ []) as Hne3.
  { intros ->. destruct Hin3 as (ds & Hds & _). by apply elem_of_nil in Hds. }
  destruct (add_log_tab self) eqn:Elog.
  - unfold log_tab in H. rewrite foldl_log_tab_step in H. simpl in H.
    injection H as <-. simpl.
    split; [by intros ?%fmap_nil_inv |].
    split.
    { exists max_n_cats. split; [by destruct dss3 |]. split.
      - destruct Hin3 as (ds & Hds & <-).
        eexists. split; [apply list_elem_of_fmap; by exists ds |].
        simpl. by rewrite list_sort_Permutation.
      - intros ds' (ds & -> & Hds)%list_elem_of_fmap. simpl.
        rewrite list_sort_Permutation. by apply Hub3. }
    split; [by destruct dss3 |].
    split; [destruct dss3; [done |]; by rewrite decide_True by auto |].
    split; [by rewrite <- list_fmap_compose, <- Hsam0, <- Hsam1, <- Hsam3 |].
    split; [| split].
    + apply Forall_fmap. eapply Forall_impl; [exact Hshape3 |].
      intros ds. apply sort_keeps_shape.
    + intros Hg. apply Forall_fmap. eapply Forall_impl; [exact (Hgrp3 Hg) |].
      intros ds Hne Hnil. simpl in Hnil. apply Hne, Permutation_nil_r.
      by rewrite <- Hnil, list_sort_Permutation.
    + intros Hp. apply Forall_fmap. eapply Forall_impl; [exact (Hpct3 Hp) |].
      intros ds. apply sort_keeps_percentages.
  - injection H as <-. simpl.
    split; [done |].
    split; [by exists max_n_cats |].
    split; [done |].
    split.
    { unfold bm. destruct (barmode pconfig) eqn:Eb.
      - rewrite bool_decide_eq_true_2 by done.
        rewrite decide_False; [done |]. by intros [|].
      - rewrite bool_decide_eq_false_2 by auto. by rewrite decide_True by auto. }
    split; [by rewrite <- Hsam0, <- Hsam1, <- Hsam3 |].
    done.
Qed.
End InitInversion.

Lemma create_figure_Ok (ds : Dataset) (is_pct : bool) :
  Forall (λ cat, is_Some (name cat) ∧
                 (is_pct = true → is_Some (data_pct cat))) (cats ds) →
  ∃ traces, create_figure ds is_pct = Ok traces ∧
            length traces = length (cats ds).
Proof.
  intros Hall. unfold create_figure.
  destruct (mapM_Ok_Forall2 (create_trace ds is_pct) (λ _ _, True) (cats ds))
    as (traces & Ht & HF).
  - intros cat Hcat. rewrite Forall_forall in Hall.
    destruct (create_trace_cases ds is_pct cat)
      as [(_ & _ & t & Ht & _)|[Hnot _]]; [by exists t |].
    by destruct Hnot; apply Hall.
  - exists traces. split; [done |]. symmetry. by eapply Forall2_length.
Qed.

Lemma val_by_cat_by_sample_Ok (ds : Dataset) :
  Forall (λ cat, is_Some (name cat) ∧
                 (length (data cat) ≤ length (samples ds))%nat) (cats ds) →
  ∃ tbl, val_by_cat_by_sample ds = Ok tbl.
Proof.
  intros Hall. unfold val_by_cat_by_sample.
  destruct (foldM_all_or_error
              (λ tbl cat, save_cat_from (samples ds) cat 0 (data cat) tbl)
              (λ cat, is_Some (name cat) ∧
                      (length (data cat) ≤ length (samples ds))%nat)
              IndexError (cats ds) ∅) as [Hok _]; [| | by apply Hok].
  - intros tbl cat _ [Hn Hl]. by apply save_cat_from_Ok.
  - intros tbl cat Hcat Hnot. rewrite Forall_forall in Hall.
    by destruct Hnot; apply Hall.
Qed.

(** X19: when the constructor succeeds, there were as many category lists
    as sample lists and at least one dataset; the layout carries the barmode
    of the configuration, the height computed from [max_n_samples] and the
    greatest number of categories of any dataset (so between 300 and 800),
    and the legend trace order ["reversed"] in grouped mode or with a log
    tab and ["normal"] otherwise; the datasets carry the sample lists in the
    order given. *)
Theorem BarPlot_init_layout
    (split_long_string : string → list string)
    (rgb_string : string → result string)
    (self : Plot) (pconfig : gmap string pyval)
    (cats_lists : list (list Cat)) (samples_lists : list (list string))
    (n : Z) (p : BarPlot) :
  BarPlot_init split_long_string rgb_string self pconfig cats_lists
    samples_lists n = Ok p →
  length cats_lists = length samples_lists ∧
  datasets p ≠ [] ∧
  (∃ max_n_cats : nat,
     layout_height (layout p)
     = height (barmode pconfig) n (Z.of_nat max_n_cats) ∧
     (∃ ds, ds ∈ datasets p ∧ length (cats ds) = max_n_cats) ∧
     ∀ ds, ds ∈ datasets p → (length (cats ds) ≤ max_n_cats)%nat) ∧
  300 ≤ layout_height (layout p) ≤ 800 ∧
  layout_barmode (layout p) = barmode pconfig ∧
  legend_traceorder (layout p)
  = (if decide (barmode pconfig = group ∨ add_log_tab self = true)
     then "reversed" else "normal")%string ∧
  samples <$> datasets p
  = (λ t, t.2) <$> zip3 (plot_datasets self) cats_lists samples_lists.
Proof.
  intros H.
  destruct (BarPlot_init_Ok_inv _ _ _ _ _ _ _ _ H)
    as (Hcount & Hne & (mc & Hh & Hin & Hub) & Hbm & Hleg & Hsam & _).
  split; [done |]. split; [done |].
  split; [by exists mc |].
  split; [| done].
  rewrite Hh. unfold height, height_before_margin, MIN_HEIGHT, MAX_HEIGHT.
  cbv zeta. lia.
Qed.

Lemma BarPlot_init_layout_witness :
  ∃ p, BarPlot_init one_piece any_color (mkPlot [base0] true true) ∅
         [[cat_X; cat_Y]] [["A"; "B"; "C"]%string] 3 = Ok p ∧
       layout_barmode (layout p) = relative ∧
       legend_traceorder (layout p) = "reversed".
Proof.
  destruct (BarPlot_init one_piece any_color (mkPlot [base0] true true) ∅
              [[cat_X; cat_Y]] [["A"; "B"; "C"]%string] 3) as [p|] eqn:E;
    [| vm_compute in E; discriminate].
  exists p. split; [reflexivity |].
  destruct (BarPlot_init_layout one_piece any_color (mkPlot [base0] true true) ∅
              [[cat_X; cat_Y]] [["A"; "B"; "C"]%string] 3 p E)
    as (_ & _ & _ & _ & Hbm & Hleg & _).
  split; [exact Hbm | exact Hleg].
Defined.

(** X20: every dataset of a constructed bar plot can be drawn and exported:
    it has at least one sample, every category has a name and one value per
    sample, [create_figure] returns one trace per category,
    [save_data_file] builds its table, and with the percent tab every
    category has a percent series of one value per sample and the percent
    figure can be drawn too. *)
Theorem BarPlot_init_drawable
    (split_long_string : string → list string)
    (rgb_string : string → result string)
    (self : Plot) (pconfig : gmap string pyval)
    (cats_lists : list (list Cat)) (samples_lists : list (list string))
    (n : Z) (p : BarPlot) :
  BarPlot_init split_long_string rgb_string self pconfig cats_lists
    samples_lists n = Ok p →
  Forall (λ ds,
    well_shaped ds ∧
    (∃ traces, create_figure ds false = Ok traces ∧
               length traces = length (cats ds)) ∧
    (∃ tbl, val_by_cat_by_sample ds = Ok tbl) ∧
    (add_pct_tab self = true →
     has_percentages ds ∧
     ∃ traces, create_figure ds true = Ok traces ∧
               length traces = length (cats ds))) (datasets p).
Proof.
  intros H.
  destruct (BarPlot_init_Ok_inv _ _ _ _ _ _ _ _ H)
    as (_ & _ & _ & _ & _ & _ & Hshape & _ & Hpct).
  apply Forall_forall. intros ds Hds.
  rewrite Forall_forall in Hshape. pose proof (Hshape ds Hds) as [Hs Hcats].
  split; [done |]. split; [| split].
  - apply create_figure_Ok. eapply Forall_impl; [exact Hcats |].
    by intros cat [? _].
  - apply val_by_cat_by_sample_Ok. eapply Forall_impl; [exact Hcats |].
    intros cat [? Hl]. split; [done | lia].
  - intros Hp. specialize (Hpct Hp). rewrite Forall_forall in Hpct.
    pose proof (Hpct ds Hds) as [Hne Hhas]. split; [done |].
    apply create_figure_Ok. apply Forall_forall. intros cat Hcat.
    rewrite Forall_forall in Hcats, Hhas.
    destruct (Hcats cat Hcat) as [Hn _]. destruct (Hhas cat Hcat) as (q & Hq & _).
    split; [done |]. intros _. by eexists.
Qed.

Lemma BarPlot_init_drawable_witness :
  ∃ p, BarPlot_init one_piece any_color (mkPlot [base0] true true) ∅
         [[cat_X; cat_Y]] [["A"; "B"; "C"]%string] 3 = Ok p ∧
       Forall well_shaped (datasets p).
Proof.
  destruct (BarPlot_init one_piece any_color (mkPlot [base0] true true) ∅
              [[cat_X; cat_Y]] [["A"; "B"; "C"]%string] 3) as [p|] eqn:E;
    [| vm_compute in E; discriminate].
  exists p. split; [reflexivity |].
  eapply Forall_impl.
  - exact (BarPlot_init_drawable one_piece any_color (mkPlot [base0] true true)
             ∅ [[cat_X; cat_Y]] [["A"; "B"; "C"]%string] 3 p E).
  - intros ds Hds. exact (proj1 Hds).
Defined.

(** ** Smaller facts *)

(** X22: the per-bar size never grows with the number of bars, and in
    stacked mode the height never shrinks when the greatest number of
    categories grows. *)
Theorem size_and_height_by_categories (n m s c c' : Z) :
  (n ≤ m → n_bars_to_size m ≤ n_bars_to_size n) ∧
  (c ≤ c' → height relative s c ≤ height relative s c').
Proof.
  split.
  - intros Hnm. unfold n_bars_to_size.
    repeat match goal with
           | |- context [?k <=? ?x] => destruct (Z.leb_spec k x)
           end; lia.
  - intros Hc. unfold height, height_before_margin, legend_height,
      HEIGHT_PER_LEGEND_ITEM, MIN_HEIGHT, MAX_HEIGHT, n_bars. cbv zeta. lia.
Qed.

Lemma size_and_height_by_categories_witness :
  n_bars_to_size 40 ≤ n_bars_to_size 7 ∧
  height relative 3 2 ≤ height relative 3 40.
Proof.
  split.
  - apply (size_and_height_by_categories 7 40 0 0 0). lia.
  - apply (size_and_height_by_categories 0 0 3 2 40). lia.
Defined.

(** X23: the barmode depends on the configuration only through the
    [stacking] key: writing or deleting any other key does not change it,
    and writing ["group"], ["normal"] or [None] under [stacking] makes the
    plot grouped whatever else the configuration holds. *)
Theorem barmode_only_stacking (pconfig : gmap string pyval) (k : string)
    (v : pyval) :
  (k ≠ "stacking"%string →
   barmode (<[k := v]> pconfig) = barmode pconfig ∧
   barmode (delete k pconfig) = barmode pconfig) ∧
  barmode (<["stacking"%string := PyStr "group"]> pconfig) = group ∧
  barmode (<["stacking"%string := PyStr "normal"]> pconfig) = group ∧
  barmode (<["stacking"%string := PyNone]> pconfig) = group ∧
  barmode (delete "stacking"%string pconfig) = relative.
Proof.
  unfold barmode. split; [| repeat split].
  - intros Hk. by rewrite lookup_insert_ne, lookup_delete_ne.
  - by rewrite lookup_insert_eq.
  - by rewrite lookup_insert_eq.
  - by rewrite lookup_insert_eq.
  - by rewrite lookup_delete_eq.
Qed.

Lemma barmode_only_stacking_witness :
  barmode (<["title"%string := PyStr "Reads"]>
             (<["stacking"%string := PyStr "group"]> ∅)) = group.
Proof.
  destruct (barmode_only_stacking (<["stacking"%string := PyStr "group"]> ∅)
              "title" (PyStr "Reads")) as [H (Hg & _)].
  destruct H as [-> _]; [discriminate |]. exact Hg.
Defined.
